(** * CORgiS-API: the serial command/telemetry middleware

    A shallow embedding of [main.go] (the validator, the decoder, the
    parameter registry, the handlers, the telemetry routine and the search
    for the device) and of the validator of the unnamed helper file of the
    repository, and the theorems that settle what the design document says
    about them.

    Go strings are byte strings: they are modelled as [string] (a list of
    8-bit [ascii] characters), [len] as [String.length].  [int64] values are
    [Z] with the range checks of [strconv] written out.  A Go
    [map[string]interface{}] whose values are all [int64] is a
    [gmap string Z]. *)

From Stdlib Require Import ZArith Ascii String List Lia Bool.
From Stdlib Require DecimalString HexadecimalString.
From stdpp Require Import base option list strings gmap.

Local Open Scope Z_scope.

(* stdpp blocks [simpl] on string concatenation; the proofs below compute
   with it. *)
#[local] Arguments String.append !_ _ / : simpl nomatch.

(** ** The slice of Go's standard library that the program uses *)

Module Go.

(** The byte value of a character, as Go sees it when it indexes a string. *)
Definition ord (c : ascii) : Z := Z.of_N (N_of_ascii c).

(** [len(s)] *)
Definition len (s : string) : nat := String.length s.

(** [s[:n]] for [n <= len(s)] (the program only slices under that guard). *)
Definition slice_to (n : nat) (s : string) : string := String.substring 0 n s.

(** [s[n:]] for [n <= len(s)]. *)
Definition slice_from (n : nat) (s : string) : string :=
  String.substring n (len s - n) s.

(** [strings.HasPrefix]: [len(s) >= len(prefix) && s[:len(prefix)] == prefix]. *)
Definition HasPrefix (s prefix : string) : bool :=
  (len prefix <=? len s)%nat && String.eqb (slice_to (len prefix) s) prefix.

(** [strings.HasSuffix]: [len(s) >= len(suffix) && s[len(s)-len(suffix):] == suffix]. *)
Definition HasSuffix (s suffix : string) : bool :=
  (len suffix <=? len s)%nat
  && String.eqb (slice_from (len s - len suffix) s) suffix.

(** [strings.Split(s, sep)] for a one-byte separator: the pieces between the
    separators, one more piece than there are separators. *)
Fixpoint Split (s : string) (sep : ascii) : list string :=
  match s with
  | EmptyString => [EmptyString]
  | String c s' =>
      if Ascii.eqb c sep then EmptyString :: Split s' sep
      else match Split s' sep with
           | piece :: pieces => String c piece :: pieces
           | [] => [String c EmptyString]
           end
  end.

(** *** [strconv.ParseInt] *)

Inductive NumError : Type := ErrSyntax | ErrRange.

(** [lower(c)]: [c | ('x' - 'X')] *)
Definition lower (c : ascii) : Z := Z.lor (ord c) 32.

(** The value of one digit in [ParseUint]'s loop, [None] for a byte that is
    no digit in any base. *)
Definition digit (c : ascii) : option Z :=
  if (ord "0" <=? ord c) && (ord c <=? ord "9") then Some (ord c - ord "0")
  else if (ord "a" <=? lower c) && (lower c <=? ord "z")
       then Some (lower c - ord "a" + 10)
       else None.

Definition maxUint64 : Z := 2 ^ 64 - 1.

(** The loop of [ParseUint] over the bytes of [s], [n] the number read so
    far.  Bases 10 and 16 never take the underscore case ([base0] is false). *)
Fixpoint parseDigits (s : string) (base bitSize : Z) (n : Z)
  : Z * option NumError :=
  match s with
  | EmptyString => (n, None)
  | String c s' =>
      match digit c with
      | None => (0, Some ErrSyntax)
      | Some d =>
          if base <=? d then (0, Some ErrSyntax)
          else
            let cutoff := maxUint64 / base + 1 in
            let maxVal := 2 ^ bitSize - 1 in
            if cutoff <=? n then (maxVal, Some ErrRange)
            else
              let n1 := n * base + d in
              if maxVal <? n1 then (maxVal, Some ErrRange)
              else parseDigits s' base bitSize n1
      end
  end.

(** [strconv.ParseUint(s, base, bitSize)] for [2 <= base <= 36]. *)
Definition ParseUint (s : string) (base bitSize : Z) : Z * option NumError :=
  match s with
  | EmptyString => (0, Some ErrSyntax)
  | _ => parseDigits s base bitSize 0
  end.

(** [strconv.ParseInt(s, base, bitSize)]: the value and the error. *)
Definition ParseInt (s : string) (base bitSize : Z) : Z * option NumError :=
  match s with
  | EmptyString => (0, Some ErrSyntax)
  | String c0 s1 =>
      let neg := Ascii.eqb c0 "-" in
      let body := if Ascii.eqb c0 "+" || neg then s1 else s in
      match ParseUint body base bitSize with
      | (_, Some ErrSyntax) => (0, Some ErrSyntax)
      | (un, _) =>
          let cutoff := 2 ^ (bitSize - 1) in
          if negb neg && (cutoff <=? un) then (cutoff - 1, Some ErrRange)
          else if neg && (cutoff <? un) then (- cutoff, Some ErrRange)
          else (if neg then - un else un, None)
      end
  end.

(** *** The compiled pattern [\w{3,4}=\w{1,4};] *)

(** [\w]: an ASCII letter, a digit or the underscore. *)
Definition isWord (c : ascii) : bool :=
  ((ord "0" <=? ord c) && (ord c <=? ord "9"))
  || ((ord "A" <=? ord c) && (ord c <=? ord "Z"))
  || ((ord "a" <=? ord c) && (ord c <=? ord "z"))
  || (ord c =? ord "_").

(** The greedy [\w{0,n}]: the longest run of at most [n] word bytes at the
    front of [s], and what follows it. *)
Fixpoint takeWord (n : nat) (s : string) : string * string :=
  match n, s with
  | S n', String c s' =>
      if isWord c then let '(run, rest) := takeWord n' s' in (String c run, rest)
      else (EmptyString, s)
  | _, _ => (EmptyString, s)
  end.

(** A match of the pattern anchored at the front of [s]: the matched text
    and the rest.  [=] and [;] are no word bytes, so backing off from the
    greedy run can never help and the match at a position is unique. *)
Definition matchHere (s : string) : option (string * string) :=
  let '(name, r1) := takeWord 4 s in
  if (len name <? 3)%nat then None
  else match r1 with
       | String "=" r2 =>
           let '(val, r3) := takeWord 4 r2 in
           if (len val <? 1)%nat then None
           else match r3 with
                | String ";" r4 => Some (name +:+ "=" +:+ val +:+ ";", r4)
                | _ => None
                end
       | _ => None
       end.

(** One search of the matcher: the leftmost match at or after the front. *)
Fixpoint leftmost (s : string) : option (string * string) :=
  match matchHere s with
  | Some found => Some found
  | None => match s with
            | EmptyString => None
            | String _ s' => leftmost s'
            end
  end.

(** The loop of [FindAll]: search, deliver the match, go on behind it.
    Every match is at least six bytes long; [budget] bounds the number of
    searches. *)
Fixpoint allMatches (budget : nat) (s : string) : list string :=
  match budget with
  | O => []
  | S budget' =>
      match leftmost s with
      | None => []
      | Some (m, rest) => m :: allMatches budget' rest
      end
  end.

(** [re.FindAll([]byte(s), -1)] for [re = \w{3,4}=\w{1,4};]. *)
Definition FindAll (s : string) : list string := allMatches (S (len s)) s.

End Go.

Import Go.

(** ** The reply-line validator of the unnamed helper file *)

Module Part000.

(** The compiled pattern, seen through the one method the program calls on
    it: [re.FindAll([]byte(s), -1)]. *)
Definition Regexp : Type := string -> list string.

(** [outputIsValid] as the unnamed file has it: the length is bounded on
    both sides. *)
Definition outputIsValid (s : string) (re : Regexp) : bool :=
  if (168 <? len s)%nat && (len s <? 215)%nat then
    if String.eqb (slice_to 4 s) "V00="
       && HasSuffix s ";"
       && (28 <=? length (re s))%nat
    then true
    else false
  else false.

End Part000.

(** ** [main.go] *)

Module Main.

Definition Regexp : Type := string -> list string.

(** [var re, _ = regexp.Compile(`\w{3,4}=\w{1,4};`)] *)
Definition re : Regexp := FindAll.

Definition VxxParams : list string :=
  ["V00"; "V01"; "V02"; "V03"; "V04"; "V05"; "V06"; "V07"; "V08"].
Definition TxxParams : list string :=
  ["T01"; "T02"; "T03"; "T04"; "T05"; "T06"; "T07"; "T08"].
Definition pumpParams : list string := ["PUMP_ON"; "PUMP_OFF"].

(** Validates raw arduino output against the pattern and a few other
    conditions. *)
Definition outputIsValid (s : string) (re : Regexp) : bool :=
  if (168 <? len s)%nat then
    if String.eqb (slice_to 4 s) "V00="
       && HasSuffix s ";"
       && (28 <=? length (re s))%nat
    then true
    else false
  else false.

(** The body of the loop of [outputToMap] for one piece [i] of the line.
    [None] is a panic: [splitted_i[1]] out of range, or [check(err)] on a
    value that does not parse. *)
Definition decodeField (res : gmap string Z) (i : string)
  : option (gmap string Z) :=
  let splitted_i := Split i "=" in
  let base := if HasPrefix i "V" then 16 else 10 in
  match splitted_i !! 1%nat with
  | None => None
  | Some text =>
      match ParseInt text base 64 with
      | (num, None) => Some (<[ hd EmptyString splitted_i := num ]> res)
      | (_, Some _) => None
      end
  end.

(** [for _, i := range ...]: the pieces in order, later ones overwrite. *)
Fixpoint rangeFields (pieces : list string) (res : gmap string Z)
  : option (gmap string Z) :=
  match pieces with
  | [] => Some res
  | i :: pieces' =>
      match decodeField res i with
      | None => None
      | Some res' => rangeFields pieces' res'
      end
  end.

(** Transforms output like ["V00=0;V01=0; ... PUMP=0;"] to a map.  The last
    piece of the split (what follows the last [;]) is dropped. *)
Definition outputToMap (s : string) : option (gmap string Z) :=
  let splitted_s := Split s ";" in
  rangeFields (removelast splitted_s) ∅.

(** checks if string is in slice *)
Fixpoint stringInSlice (a : string) (list : list string) : bool :=
  match list with
  | [] => false
  | b :: list' => if String.eqb b a then true else stringInSlice a list'
  end.

(** validates provided url value *)
Definition URLValueValid (p v : string) : bool :=
  if (0 <? len v)%nat then
    match ParseInt v 10 64 with
    | (_, Some _) => false
    | (valueToInt, None) =>
        if stringInSlice p VxxParams && (0 <=? valueToInt) && (valueToInt <? 256)
        then true
        else if stringInSlice p TxxParams && (0 <=? valueToInt)
                && (valueToInt <? 1000)
        then true
        else false
    end
  else if stringInSlice p pumpParams then true
  else false.

(** validates provided URL param *)
Definition URLParamValid (s : string) : bool :=
  if stringInSlice s VxxParams || stringInSlice s TxxParams
     || stringInSlice s pumpParams
  then true
  else false.

(** The command line that [setHandler] formats for the device. *)
Definition command (param value : string) : string :=
  if HasPrefix param "PUMP" then "<" +:+ param +:+ ";>"
  else "<SET_" +:+ param +:+ "=" +:+ value +:+ ";>".


(** *** The handlers and the telemetry routine, with their effects

    The effects of the program are on four things: the lines the device
    sends (one per [scanner.Scan()]), the bytes written to the device, the
    body written to the HTTP response, and the points written to the
    database.  [arduino.Write] and the database write are taken to succeed;
    [json.Marshal] of a map of integers cannot fail, and the marshalled
    body stands as [Json] of the map. *)

Inductive body : Type :=
| Text (s : string)
| Json (answer : gmap string Z).

Record world : Type := World {
  serial_in : list string;
  serial_out : list string;
  http_out : list body;
  influx : list (gmap string Z)
}.

(** How a run of a piece of the program ends on a finite prefix of the
    device's output: it returns, it panics, it is still waiting in
    [scanner.Scan()] for a line the device has not sent, or the model's
    loop budget ran out (excluded by [budget_of] below). *)
Inductive outcome (A : Type) : Type :=
| Ret (a : A) (w : world)
| Panic (w : world)
| Blocked (w : world)
| OutOfBudget (w : world).
Arguments Ret {A} a w.
Arguments Panic {A} w.
Arguments Blocked {A} w.
Arguments OutOfBudget {A} w.

Definition M (A : Type) : Type := world -> outcome A.

Definition ret {A} (a : A) : M A := fun w => Ret a w.

Definition bind {A B} (m : M A) (k : A -> M B) : M B :=
  fun w =>
    match m w with
    | Ret a w' => k a w'
    | Panic w' => Panic w'
    | Blocked w' => Blocked w'
    | OutOfBudget w' => OutOfBudget w'
    end.

Notation "x <- m ;; k" := (bind m (fun x => k))
  (at level 100, m at next level, right associativity).
Notation "m ;;; k" := (bind m (fun _ => k))
  (at level 100, right associativity).

(** [panic(err.Error())] *)
Definition panic {A} : M A := fun w => Panic w.

(** [check(err)] on the result of a computation that may have failed. *)
Definition check {A} (r : option A) : M A :=
  match r with
  | Some a => ret a
  | None => panic
  end.

(** [arduino.Write([]byte(cmd))] *)
Definition arduino_Write (cmd : string) : M unit :=
  fun w => Ret tt (World (serial_in w) (serial_out w ++ [cmd])
                         (http_out w) (influx w)).

(** [scanner := bufio.NewScanner(arduino); scanner.Scan(); scanner.Text()] *)
Definition scan : M string :=
  fun w =>
    match serial_in w with
    | [] => Blocked w
    | output :: rest =>
        Ret output (World rest (serial_out w) (http_out w) (influx w))
    end.

(** [w.Write(...)] on the response writer. *)
Definition w_Write (b : body) : M unit :=
  fun w => Ret tt (World (serial_in w) (serial_out w)
                         (http_out w ++ [b]) (influx w)).

(** write transformed outputs from arduino to database *)
Definition writeLineToDatabase (output : gmap string Z) : M unit :=
  fun w => Ret tt (World (serial_in w) (serial_out w)
                         (http_out w) (influx w ++ [output])).

(** Every turn of every loop of the program reads one line at least, so
    one more turn than there are lines is budget enough. *)
Definition budget_of (w : world) : nat := S (length (serial_in w)).

(** reads serial output until it matches validation check *)
Fixpoint singleOutputRead_loop (budget : nat) : M string :=
  match budget with
  | O => fun w => OutOfBudget w
  | S budget' =>
      arduino_Write "<GET_ALL;>" ;;;
      output <- scan ;;
      if outputIsValid output re then ret output
      else singleOutputRead_loop budget'
  end.

Definition singleOutputRead : M string :=
  fun w => singleOutputRead_loop (budget_of w) w.

(** [outputToMap(singleOutputRead())] *)
Definition readAnswer : M (gmap string Z) :=
  output <- singleOutputRead ;; check (outputToMap output).

(** [answer[param] == valueToInt]: the entry is there and is that [int64]. *)
Definition answerIs (answer : gmap string Z) (key : string) (n : Z) : bool :=
  bool_decide (answer !! key = Some n).

(** The confirmation loop of a [Vxx] parameter. *)
Fixpoint levelLoop (budget : nat) (param : string) (valueToInt : Z) : M unit :=
  match budget with
  | O => fun w => OutOfBudget w
  | S budget' =>
      answer <- readAnswer ;;
      if answerIs answer param valueToInt then w_Write (Json answer)
      else levelLoop budget' param valueToInt
  end.

(** The confirmation loop of [PUMP_ON] and [PUMP_OFF]. *)
Fixpoint pumpLoop (budget : nat) (param : string) : M unit :=
  match budget with
  | O => fun w => OutOfBudget w
  | S budget' =>
      answer <- readAnswer ;;
      if String.eqb param "PUMP_ON" && answerIs answer "PUMP" 1
      then w_Write (Json answer)
      else if String.eqb param "PUMP_OFF" && answerIs answer "PUMP" 0
      then w_Write (Json answer)
      else pumpLoop budget' param
  end.

Definition levelConfirm (param : string) (valueToInt : Z) : M unit :=
  fun w => levelLoop (budget_of w) param valueToInt w.

Definition pumpConfirm (param : string) : M unit :=
  fun w => pumpLoop (budget_of w) param w.

(** [setHandler] on the query values of [param] and [value] ([""] for an
    absent one). *)
Definition setHandler (param value : string) : M unit :=
  if negb (URLParamValid param) then w_Write (Text "error: incorrect param!")
  else if negb (URLValueValid param value)
  then w_Write (Text "error: incorrect value!")
  else
    arduino_Write (command param value) ;;;
    if stringInSlice param VxxParams then
      valueToInt <- check (match ParseInt value 10 64 with
                           | (n, None) => Some n
                           | (_, Some _) => None
                           end) ;;
      levelConfirm param valueToInt
    else if stringInSlice param pumpParams then pumpConfirm param
    else if stringInSlice param TxxParams then
      answer <- readAnswer ;; w_Write (Json answer)
    else w_Write (Text "error: something unexpected happened").

Definition getHandler : M unit :=
  answer <- readAnswer ;; w_Write (Json answer).

(** One turn of the loop of [DB_routine]. *)
Definition DB_cycle : M unit :=
  arduino_Write "<GET_ALL;>" ;;;
  output <- scan ;;
  if outputIsValid output re then
    output' <- check (outputToMap output) ;;
    writeLineToDatabase output'
  else ret tt.

(** The first [cycles] turns of the loop of [DB_routine]. *)
Fixpoint DB_routine (cycles : nat) : M unit :=
  match cycles with
  | O => ret tt
  | S cycles' => DB_cycle ;;; DB_routine cycles'
  end.

(** The world an outcome leaves behind. *)
Definition after {A} (o : outcome A) : world :=
  match o with
  | Ret _ w | Panic w | Blocked w | OutOfBudget w => w
  end.

End Main.

Import Main.

(** ** Sample device lines *)

(** A well-formed snapshot of 28 fields, 204 bytes long. *)
Definition sample : string :=
  "V00=ff;V01=00;V02=00;V03=00;V04=00;V05=00;V06=00;V07=00;V08=00;T01=020;T02=020;T03=020;T04=020;T05=020;T06=020;T07=020;T08=020;S01=00;S02=00;S03=00;S04=00;S05=00;S06=00;S07=00;S08=00;S09=00;S10=00;PUMP=1;".

(** 28 fields again, each value four bytes wide: 253 bytes. *)
Definition wide_sample : string :=
  "V00=00ff;V01=0000;V02=0000;V03=0000;V04=0000;V05=0000;V06=0000;V07=0000;V08=0000;T01=0020;T02=0020;T03=0020;T04=0020;T05=0020;T06=0020;T07=0020;T08=0020;S01=0000;S02=0000;S03=0000;S04=0000;S05=0000;S06=0000;S07=0000;S08=0000;S09=0000;S10=0000;PUMP=0001;".

(** A line that passes [outputIsValid] and has a field, [V01=zz], whose
    value is no hexadecimal number. *)
Definition garbled : string :=
  "V00=ff;V01=zz;V02=00;V03=00;V04=00;V05=00;V06=00;V07=00;V08=00;T01=020;T02=020;T03=020;T04=020;T05=020;T06=020;T07=020;T08=020;S01=00;S02=00;S03=00;S04=00;S05=00;S06=00;S07=00;S08=00;S09=00;S10=00;PUMP=1;".

(** A line of 181 bytes with only 20 segments. *)
Definition twenty : string :=
  "V00=00ff;V01=0000;V02=0000;V03=0000;V04=0000;V05=0000;V06=0000;V07=0000;V08=0000;T01=0020;T02=0020;T03=0020;T04=0020;T05=0020;T06=0020;T07=0020;T08=0020;S01=0000;S02=0000;PUMP=0001;".

(** The snapshot of [sample] with the pump off. *)
Definition sample_off : string :=
  "V00=ff;V01=00;V02=00;V03=00;V04=00;V05=00;V06=00;V07=00;V08=00;T01=020;T02=020;T03=020;T04=020;T05=020;T06=020;T07=020;T08=020;S01=00;S02=00;S03=00;S04=00;S05=00;S06=00;S07=00;S08=00;S09=00;S10=00;PUMP=0;".

(** What [sample] and [sample_off] decode to. *)
Definition snap_on : gmap string Z := default ∅ (outputToMap sample).
Definition snap_off : gmap string Z := default ∅ (outputToMap sample_off).

(** The fields of [sample] behind [V00]. *)
Definition sample_rest : list (string * string) :=
  [("V01", "00"); ("V02", "00"); ("V03", "00"); ("V04", "00"); ("V05", "00");
   ("V06", "00"); ("V07", "00"); ("V08", "00");
   ("T01", "020"); ("T02", "020"); ("T03", "020"); ("T04", "020");
   ("T05", "020"); ("T06", "020"); ("T07", "020"); ("T08", "020");
   ("S01", "00"); ("S02", "00"); ("S03", "00"); ("S04", "00"); ("S05", "00");
   ("S06", "00"); ("S07", "00"); ("S08", "00"); ("S09", "00"); ("S10", "00");
   ("PUMP", "1")].

(** ** Vocabulary of the statements *)

(** The decimal text of a natural number, as a client writes it in the URL. *)
Definition decimal (v : Z) : string :=
  DecimalString.NilZero.string_of_uint (N.to_uint (Z.to_N v)).

(** Its hexadecimal text, as the device writes a level in a reply. *)
Definition hex (v : Z) : string :=
  HexadecimalString.NilZero.string_of_uint (N.to_hex_uint (Z.to_N v)).

(** [s] has no byte [sep]. *)
Fixpoint lacks (sep : ascii) (s : string) : bool :=
  match s with
  | EmptyString => true
  | String c s' => negb (Ascii.eqb c sep) && lacks sep s'
  end.

(** The piece [name=value] of a reply line, and a line of such pieces, each
    closed by [;]. *)
Definition piece (f : string * string) : string := fst f +:+ "=" +:+ snd f.

Fixpoint render (fields : list (string * string)) : string :=
  match fields with
  | [] => EmptyString
  | f :: fields' => piece f +:+ ";" +:+ render fields'
  end.

(** A field the decoder can read: neither part holds a separator, and the
    value parses in the base of its class. *)
Definition fieldOK (f : string * string) : bool :=
  lacks ";" (fst f) && lacks "=" (fst f)
  && lacks ";" (snd f) && lacks "=" (snd f)
  && match ParseInt (snd f) (if HasPrefix (fst f) "V" then 16 else 10) 64 with
     | (_, None) => true
     | (_, Some _) => false
     end.

(** What the round trip of a level needs of one value [v], checked by
    evaluation for each of the 256 values. *)
Definition levelTexts (v : Z) : bool :=
  match ParseInt (decimal v) 10 64 with
  | (n, None) => n =? v
  | (_, Some _) => false
  end
  && match ParseInt (hex v) 16 64 with
     | (n, None) => n =? v
     | (_, Some _) => false
     end
  && lacks ";" (hex v) && lacks "=" (hex v) && (0 <? len (decimal v))%nat.

(** The command of every poll and of every telemetry cycle. *)
Definition GET_ALL : string := "<GET_ALL;>".

(** The world after one command went out and one line came in. *)
Definition polled (rest : list string) (w : world) : world :=
  World rest (serial_out w ++ [GET_ALL]) (http_out w) (influx w).

(** The run did not end because the loop budget of the model ran out. *)
Definition in_budget {A} (o : outcome A) : Prop :=
  match o with
  | OutOfBudget _ => False
  | _ => True
  end.

(** The outcome [o] of a run from [w] has written a point to the database. *)
Definition sink_written (w : world) (o : outcome unit) : Prop :=
  exists point, influx (after o) = influx w ++ [point].

(** The test of the toggle loop, as the code writes it. *)
Definition pumpTest (param : string) (answer : gmap string Z) : bool :=
  (String.eqb param "PUMP_ON" && answerIs answer "PUMP" 1)
  || (String.eqb param "PUMP_OFF" && answerIs answer "PUMP" 0).

(** The state field [PUMP] of a snapshot is what the toggle asked for: 1 for
    [PUMP_ON], 0 for [PUMP_OFF]. *)
Definition pump_reached (param : string) (answer : gmap string Z) : Prop :=
  (param = "PUMP_ON" /\ answer !! "PUMP" = Some 1)
  \/ (param = "PUMP_OFF" /\ answer !! "PUMP" = Some 0).

(** [lines] are valid snapshots and [snaps] what they decode to. *)
Definition fed (lines : list string) (snaps : list (gmap string Z)) : Prop :=
  Forall2 (fun line answer => Main.outputIsValid line re = true
                              /\ outputToMap line = Some answer)
          lines snaps.

(** Every byte of [s] is a word byte. *)
Fixpoint allWord (s : string) : bool :=
  match s with
  | EmptyString => true
  | String c s' => isWord c && allWord s'
  end.

(** The language of [\w{3,4}=\w{1,4};], said directly: a name of three or
    four word bytes, [=], a value of one to four word bytes, [;]. *)
Definition segment (m : string) : Prop :=
  exists name val,
    m = name +:+ "=" +:+ val +:+ ";"
    /\ (3 <= len name <= 4)%nat /\ (1 <= len val <= 4)%nat
    /\ allWord name = true /\ allWord val = true.

(** [rest] does not go on with a word byte. *)
Definition stops (rest : string) : Prop :=
  match rest with
  | EmptyString => True
  | String c _ => isWord c = false
  end.

(** A decimal digit. *)
Definition isDigit (c : ascii) : bool :=
  (ord "0" <=? ord c) && (ord c <=? ord "9").

Fixpoint allDigits (s : string) : bool :=
  match s with
  | EmptyString => true
  | String c s' => isDigit c && allDigits s'
  end.

(** A decimal numeral: an optional sign and one decimal digit at least. *)
Definition numeral (v : string) : bool :=
  match v with
  | EmptyString => false
  | String c rest =>
      if Ascii.eqb c "+" || Ascii.eqb c "-"
      then (0 <? len rest)%nat && allDigits rest
      else allDigits v
  end.

(** The world after the handler has answered [msg] and done nothing else. *)
Definition answered (msg : string) (w : world) : world :=
  World (serial_in w) (serial_out w) (http_out w ++ [Text msg]) (influx w).

(** ** Goroutines on the one channel

    [main] starts [DB_routine] on a goroutine of its own and [net/http]
    serves every request on another; all of them use the package-level
    handle [arduino], and the program has no lock, channel or other
    synchronisation.  What a goroutine does on the handle is a sequence of
    operations in program order; a run of the program takes, at every step,
    the next operation of any goroutine that has one. *)

Inductive op : Type :=
| Write (cmd : string)
| Scan.

(** An operation with the index of the goroutine that performs it. *)
Definition event : Type := nat * op.

(** One turn of the loop of [DB_routine], and of [singleOutputRead]. *)
Definition roundTrip : list op := [Write GET_ALL; Scan].

Fixpoint roundTrips (turns : nat) : list op :=
  match turns with
  | O => []
  | S turns' => roundTrip ++ roundTrips turns'
  end.

(** The operations in the effect model of the handlers. *)
Definition perform (o : op) : M unit :=
  match o with
  | Write cmd => arduino_Write cmd
  | Scan => bind scan (fun _ => ret tt)
  end.

Fixpoint performAll (os : list op) : M unit :=
  match os with
  | [] => ret tt
  | o :: os' => bind (perform o) (fun _ => performAll os')
  end.

(** The two sides of the channel in a world. *)
Definition channel (w : world) : list string * list string :=
  (serial_in w, serial_out w).

(** [run pool tr pool']: from the goroutines [pool] (what each has still to
    do) the steps [tr] can happen in this order and leave [pool']. *)
Inductive run : list (list op) -> list event -> list (list op) -> Prop :=
| run_stop (pool : list (list op)) : run pool [] pool
| run_step (pool pool' : list (list op)) (g : nat) (o : op) (todo : list op)
           (tr : list event) :
    pool !! g = Some (o :: todo) ->
    run (<[ g := todo ]> pool) tr pool' ->
    run pool ((g, o) :: tr) pool'.





(** What a set request does on the channel: its command, and then the round
    trips of its polls. *)
Definition setRequest (cmd : string) (turns : nat) : list op :=
  Write cmd :: roundTrips turns.






(** ** Finding the device: [findArduinoPort] and [getSerialNumbers] *)

Module Discovery.

(** The fields of [enumerator.PortDetails] that the program reads. *)
Record PortDetails : Type := Port {
  Name : string;
  IsUSB : bool;
  SerialNumber : string
}.

(** [strings.Contains(s, " ")] *)
Fixpoint ContainsSpace (s : string) : bool :=
  match s with
  | EmptyString => false
  | String c s' => if Ascii.eqb c " " then true else ContainsSpace s'
  end.

(** [strings.ReplaceAll(s, " ", "")] *)
Fixpoint ReplaceAllSpace (s : string) : string :=
  match s with
  | EmptyString => EmptyString
  | String c s' =>
      if Ascii.eqb c " " then ReplaceAllSpace s'
      else String c (ReplaceAllSpace s')
  end.

(** Reads serial numbers from the file, removes the blanks and returns the
    lines.  [file] is the lines of [serial_numbers.txt], [None] when the file
    cannot be opened ([check(err)] panics). *)
Definition getSerialNumbers (file : option (list string)) : option (list string) :=
  match file with
  | None => None
  | Some lines =>
      Some (map (fun sn => if ContainsSpace sn then ReplaceAllSpace sn else sn)
                lines)
  end.

(** One pass over an enumeration of the ports. *)
Inductive found : Type :=
| Found (name : string)
| NotFound
| FilePanic.

(** [for _, sn := range ... { if sn == port.SerialNumber ... } ] *)
Fixpoint rangeSerials (sns : list string) (port : PortDetails) : bool :=
  match sns with
  | [] => false
  | sn :: sns' =>
      if String.eqb sn (SerialNumber port) then true else rangeSerials sns' port
  end.

Fixpoint scanPorts (ports : list PortDetails) (file : option (list string))
  : found :=
  match ports with
  | [] => NotFound
  | port :: ports' =>
      if IsUSB port then
        match getSerialNumbers file with
        | None => FilePanic
        | Some sns =>
            if rangeSerials sns port then Found (Name port)
            else scanPorts ports' file
        end
      else scanPorts ports' file
  end.

(** [findArduinoPort] on the enumerations that successive turns of its loop
    get: the name of the port, [FilePanic], or [NotFound] when the device has
    not shown up in any of them (the program goes on waiting). *)
Fixpoint findArduinoPort (enumerations : list (list PortDetails))
         (file : option (list string)) : found :=
  match enumerations with
  | [] => NotFound
  | ports :: later =>
      match scanPorts ports file with
      | NotFound => findArduinoPort later file
      | result => result
      end
  end.

End Discovery.

(** ** The handlers on a port whose writes can fail

    [setHandler], [getHandler] and [singleOutputRead] follow every
    [arduino.Write] with [check(err)]: a write that fails ends them in a
    panic.  [fails sent] says whether the write that is attempted after the
    commands [sent] have gone out fails; a write that succeeds lengthens
    [sent] and a handler stops at its first failed write, so a function of
    [sent] can give any pattern of failures in a run.  With [fails] false
    everywhere these are the handlers of [Main]. *)

Module Faulty.

(** [_, err := arduino.Write([]byte(cmd)); check(err)] *)
Definition arduino_Write (fails : list string -> bool) (cmd : string) : M unit :=
  fun w => if fails (serial_out w) then Panic w else Main.arduino_Write cmd w.

(** reads serial output until it matches validation check *)
Fixpoint singleOutputRead_loop (fails : list string -> bool) (budget : nat)
  : M string :=
  match budget with
  | O => fun w => OutOfBudget w
  | S budget' =>
      bind (arduino_Write fails "<GET_ALL;>") (fun _ =>
      bind scan (fun output =>
      if Main.outputIsValid output re then ret output
      else singleOutputRead_loop fails budget'))
  end.

Definition singleOutputRead (fails : list string -> bool) : M string :=
  fun w => singleOutputRead_loop fails (budget_of w) w.

(** [outputToMap(singleOutputRead())] *)
Definition readAnswer (fails : list string -> bool) : M (gmap string Z) :=
  bind (singleOutputRead fails) (fun output => check (outputToMap output)).

(** The confirmation loop of a [Vxx] parameter. *)
Fixpoint levelLoop (fails : list string -> bool) (budget : nat)
         (param : string) (valueToInt : Z) : M unit :=
  match budget with
  | O => fun w => OutOfBudget w
  | S budget' =>
      bind (readAnswer fails) (fun answer =>
      if answerIs answer param valueToInt then w_Write (Json answer)
      else levelLoop fails budget' param valueToInt)
  end.

(** The confirmation loop of [PUMP_ON] and [PUMP_OFF]. *)
Fixpoint pumpLoop (fails : list string -> bool) (budget : nat) (param : string)
  : M unit :=
  match budget with
  | O => fun w => OutOfBudget w
  | S budget' =>
      bind (readAnswer fails) (fun answer =>
      if String.eqb param "PUMP_ON" && answerIs answer "PUMP" 1
      then w_Write (Json answer)
      else if String.eqb param "PUMP_OFF" && answerIs answer "PUMP" 0
      then w_Write (Json answer)
      else pumpLoop fails budget' param)
  end.

Definition levelConfirm (fails : list string -> bool) (param : string)
           (valueToInt : Z) : M unit :=
  fun w => levelLoop fails (budget_of w) param valueToInt w.

Definition pumpConfirm (fails : list string -> bool) (param : string) : M unit :=
  fun w => pumpLoop fails (budget_of w) param w.

Definition setHandler (fails : list string -> bool) (param value : string)
  : M unit :=
  if negb (URLParamValid param) then w_Write (Text "error: incorrect param!")
  else if negb (URLValueValid param value)
  then w_Write (Text "error: incorrect value!")
  else
    bind (arduino_Write fails (command param value)) (fun _ =>
    if stringInSlice param VxxParams then
      bind (check (match ParseInt value 10 64 with
                   | (n, None) => Some n
                   | (_, Some _) => None
                   end))
           (fun valueToInt => levelConfirm fails param valueToInt)
    else if stringInSlice param pumpParams then pumpConfirm fails param
    else if stringInSlice param TxxParams then
      bind (readAnswer fails) (fun answer => w_Write (Json answer))
    else w_Write (Text "error: something unexpected happened")).

Definition getHandler (fails : list string -> bool) : M unit :=
  bind (readAnswer fails) (fun answer => w_Write (Json answer)).

End Faulty.

(** ** Vocabulary of the further statements *)

(** A line of 168 bytes with 28 segments of six bytes. *)
Definition tight : string :=
  "V00=0;V01=0;V02=0;V03=0;V04=0;V05=0;V06=0;V07=0;V08=0;T01=0;T02=0;T03=0;T04=0;T05=0;T06=0;T07=0;T08=0;S01=0;S02=0;S03=0;S04=0;S05=0;S06=0;S07=0;S08=0;S09=0;S10=0;PMP=0;".

(** The integer the decoder reads in a field. *)
Definition fieldValue (f : string * string) : Z :=
  fst (ParseInt (snd f) (if HasPrefix (fst f) "V" then 16 else 10) 64).

(** The value of the last field named [key], if there is one. *)
Fixpoint lastValue (key : string) (fields : list (string * string)) : option Z :=
  match fields with
  | [] => None
  | f :: fields' =>
      match lastValue key fields' with
      | Some z => Some z
      | None => if String.eqb (fst f) key then Some (fieldValue f) else None
      end
  end.

(** The lines of [lines] up to the first one that passes validation are
    [skipped], that one is [good], and [rest] follow it. *)
Definition first_valid (lines skipped : list string) (good : string)
           (rest : list string) : Prop :=
  lines = skipped ++ good :: rest
  /\ Forall (fun line => Main.outputIsValid line re = false) skipped
  /\ Main.outputIsValid good re = true.

(** Every line of [lines] that passes validation decodes. *)
Definition decodable (lines : list string) : Prop :=
  Forall (fun line => Main.outputIsValid line re = true ->
                      is_Some (outputToMap line)) lines.

(** What the telemetry loop stores of [lines]: the decoded valid ones. *)
Fixpoint stored (lines : list string) : list (gmap string Z) :=
  match lines with
  | [] => []
  | line :: lines' =>
      if Main.outputIsValid line re
      then match outputToMap line with
           | Some point => point :: stored lines'
           | None => stored lines'
           end
      else stored lines'
  end.

(** The run ended in a panic. *)
Definition panicked {A} (o : outcome A) : Prop :=
  match o with
  | Panic _ => True
  | _ => False
  end.

(** The run returned. *)
Definition returned {A} (o : outcome A) : Prop :=
  match o with
  | Ret _ _ => True
  | _ => False
  end.

(** The decimal text of [v] is read back as [v] by [ParseUint], checked by
    evaluation for each of the 256 values. *)
Definition decimalReadsBack (v : Z) : bool :=
  match ParseUint (decimal v) 10 64 with
  | (n, None) => n =? v
  | (_, Some _) => false
  end.

(** A port the program may pick: a USB port whose serial number is listed. *)
Definition eligible (sns : list string) (port : Discovery.PortDetails) : Prop :=
  Discovery.IsUSB port = true /\ In (Discovery.SerialNumber port) sns.

(** [k] bytes [0]. *)
Fixpoint zeros (k : nat) : string :=
  match k with
  | O => EmptyString
  | S k' => String "0" (zeros k')
  end.

(** A line that passes validation and does not decode. *)
Definition bad (line : string) : Prop :=
  Main.outputIsValid line re = true /\ outputToMap line = None.

(** A run [o] from [w] wrote [<GET_ALL;>] to the device and nothing else,
    and left the database alone; if it wrote nothing at all, it is the
    panic of a first write that failed. *)
Definition polls_only (fails : list string -> bool) (w : world) {A}
           (o : outcome A) : Prop :=
  exists polls,
    serial_out (after o) = serial_out w ++ replicate polls GET_ALL
    /\ influx (after o) = influx w
    /\ (polls = 0%nat -> o = Panic w /\ fails (serial_out w) = true).

(** The response after the run [o] from [w]: one snapshot more if the run
    returned, what it was if it did not. *)
Definition answers_iff_returned (w : world) (o : outcome unit) : Prop :=
  (returned o /\ exists answer, http_out (after o) = http_out w ++ [Json answer])
  \/ (~ returned o /\ http_out (after o) = http_out w).

(** What a request with the command [cmd] did in the run [o] from [w] on the
    port [fails].  The budget of the model did not end the run.  Either
    the write of the command failed, and the run is a panic that changed
    nothing; or the command went out, once and first, and after it
    [<GET_ALL;>] only, and if none went out the run is the panic of the
    first poll, whose write failed.  The database is as it was.  The
    response has one snapshot more exactly if the run returned. *)
Definition port_disciplined (fails : list string -> bool) (w : world)
           (o : outcome unit) (cmd : string) : Prop :=
  in_budget o
  /\ influx (after o) = influx w
  /\ answers_iff_returned w o
  /\ ((fails (serial_out w) = true /\ o = Panic w)
      \/ (fails (serial_out w) = false
          /\ exists polls,
              serial_out (after o) = serial_out w ++ cmd :: replicate polls GET_ALL
              /\ (polls = 0%nat ->
                  panicked o /\ fails (serial_out w ++ [cmd]) = true))).

(** From [w] to [w'] the lines [pre] were read and [<GET_ALL;>] was written
    [polls] times, once for each line read at least, and nothing else
    changed on the channel or in the database. *)
Definition advanced (polls : nat) (pre : list string) (w w' : world) : Prop :=
  serial_in w = pre ++ serial_in w'
  /\ (length pre <= polls)%nat
  /\ serial_out w' = serial_out w ++ replicate polls GET_ALL
  /\ influx w' = influx w.

(** How a read from [w] on the port [fails] ended: it returned something
    after reading a line at least, or it panicked at a failed write or on a
    bad line that it had read, or it waits for the device after a poll. *)
Definition read_inv (fails : list string -> bool) (w : world) {A}
           (o : outcome A) (ok : A -> list string -> Prop) : Prop :=
  exists polls pre,
    advanced polls pre w (after o)
    /\ http_out (after o) = http_out w
    /\ match o with
       | Ret a _ => pre <> [] /\ ok a pre
       | Panic w' => fails (serial_out w') = true \/ Exists bad pre
       | Blocked _ => (1 <= polls)%nat
       | OutOfBudget _ => False
       end.

(** The same for a piece of a handler that answers when it returns. *)
Definition handled_inv (fails : list string -> bool) (w : world)
           (o : outcome unit) : Prop :=
  exists polls pre,
    advanced polls pre w (after o)
    /\ answers_iff_returned w o
    /\ match o with
       | Ret _ _ => (1 <= polls)%nat
       | Panic w' => fails (serial_out w') = true \/ Exists bad pre
       | Blocked _ => (1 <= polls)%nat
       | OutOfBudget _ => False
       end.

(** The port on which the second write fails. *)
Definition second_write_fails (sent : list string) : bool :=
  Nat.eqb (length sent) 1.


(** ** Facts about strings *)

Section StringFacts.

Lemma append_nil_r (s : string) : s +:+ "" = s.
Proof. induction s as [|c s IH]; simpl; [reflexivity | now rewrite IH]. Qed.

Lemma append_assoc (s t u : string) : (s +:+ t) +:+ u = s +:+ t +:+ u.
Proof. induction s as [|c s IH]; simpl; [reflexivity | now rewrite IH]. Qed.

Lemma len_append (s t : string) : len (s +:+ t) = (len s + len t)%nat.
Proof. unfold len. induction s as [|c s IH]; simpl; [reflexivity | now rewrite IH]. Qed.

Lemma substring_0_all (s : string) : String.substring 0 (String.length s) s = s.
Proof. induction s as [|c s IH]; simpl; [reflexivity | now rewrite IH]. Qed.

Lemma substring_0_append (p t : string) :
  String.substring 0 (String.length p) (p +:+ t) = p.
Proof.
  induction p as [|c p IH]; simpl.
  - destruct t; reflexivity.
  - now rewrite IH.
Qed.

Lemma substring_0_split (n : nat) (s : string) :
  (n <= String.length s)%nat ->
  exists t, s = String.substring 0 n s +:+ t.
Proof.
  revert s. induction n as [|n IH]; intros s Hn.
  - exists s. destruct s; reflexivity.
  - destruct s as [|c s]; simpl in *; [lia|].
    destruct (IH s) as [t Ht]; [lia|]. exists t. now rewrite <- Ht.
Qed.

Lemma substring_skip (p t : string) (m : nat) :
  String.substring (String.length p) m (p +:+ t) = String.substring 0 m t.
Proof. induction p as [|c p IH]; simpl; [reflexivity | apply IH]. Qed.

Lemma substring_from_split (n : nat) (s : string) :
  (n <= String.length s)%nat ->
  exists p, s = p +:+ String.substring n (String.length s - n) s
            /\ String.length p = n.
Proof.
  revert s. induction n as [|n IH]; intros s Hn.
  - exists "". rewrite Nat.sub_0_r, substring_0_all. split; reflexivity.
  - destruct s as [|c s]; simpl in *; [lia|].
    destruct (IH s) as (p & Hp & Hl); [lia|].
    exists (String c p). simpl. split; [now rewrite <- Hp | now rewrite Hl].
Qed.

(** [HasPrefix] says what its name says. *)
Lemma HasPrefix_spec (s p : string) :
  HasPrefix s p = true <-> exists t, s = p +:+ t.
Proof.
  unfold HasPrefix, slice_to, len. split.
  - intros H. apply andb_true_iff in H as [Hl He].
    apply Nat.leb_le in Hl. apply String.eqb_eq in He.
    destruct (substring_0_split _ _ Hl) as [t Ht]. exists t. now rewrite <- He.
  - intros [t ->]. apply andb_true_iff. split.
    + apply Nat.leb_le. pose proof (len_append p t) as E. unfold len in E. lia.
    + apply String.eqb_eq. apply substring_0_append.
Qed.

(** [HasSuffix] says what its name says. *)
Lemma HasSuffix_spec (s x : string) :
  HasSuffix s x = true <-> exists t, s = t +:+ x.
Proof.
  unfold HasSuffix, slice_from, len. split.
  - intros H. apply andb_true_iff in H as [Hl He].
    apply Nat.leb_le in Hl. apply String.eqb_eq in He.
    destruct (substring_from_split (String.length s - String.length x) s)
      as (p & Hp & _); [lia|].
    exists p. now rewrite <- He.
  - intros [t ->]. pose proof (len_append t x) as E. unfold len in E.
    apply andb_true_iff. split; [apply Nat.leb_le; lia|].
    apply String.eqb_eq. rewrite E.
    replace (String.length t + String.length x - String.length x)%nat
      with (String.length t) by lia.
    rewrite substring_skip.
    replace (String.length t + String.length x - String.length t)%nat
      with (String.length x) by lia.
    apply substring_0_all.
Qed.

(** [s[:4] == "V00="] under the guard [len(s) > 168]. *)
Lemma slice_to_spec (s p : string) :
  (len p <= len s)%nat ->
  String.eqb (slice_to (len p) s) p = true <-> exists t, s = p +:+ t.
Proof.
  intros Hl. rewrite <- HasPrefix_spec. unfold HasPrefix.
  apply Nat.leb_le in Hl. rewrite Hl. reflexivity.
Qed.

End StringFacts.

(** ** The pattern matcher against the language of the pattern *)

Section Pattern.


Lemma takeWord_split (n : nat) (s run rest : string) :
  takeWord n s = (run, rest) ->
  s = run +:+ rest /\ (len run <= n)%nat /\ allWord run = true.
Proof.
  revert s run rest. induction n as [|n IH]; intros s run rest H.
  - destruct s; simpl in H; inversion H; subst; simpl; auto with arith.
  - destruct s as [|c s]; simpl in H.
    + inversion H; subst; simpl; auto with arith.
    + destruct (isWord c) eqn:Hc.
      * destruct (takeWord n s) as [run' rest'] eqn:Ht.
        inversion H; subst; clear H.
        destruct (IH _ _ _ Ht) as (-> & Hl & Hw).
        unfold len in *. simpl. rewrite Hc, Hw. repeat split; auto. lia.
      * inversion H; subst; simpl. unfold len; simpl. repeat split; auto. lia.
Qed.

Lemma takeWord_exact (n : nat) (run rest : string) :
  allWord run = true -> (len run <= n)%nat -> stops rest ->
  takeWord n (run +:+ rest) = (run, rest).
Proof.
  revert run. induction n as [|n IH]; intros run Hw Hl Hs.
  - destruct run; unfold len in Hl; simpl in Hl; [|lia].
    simpl. destruct rest; reflexivity.
  - destruct run as [|c run]; simpl.
    + destruct rest as [|d rest]; [reflexivity|]. simpl in Hs. now rewrite Hs.
    + simpl in Hw. apply andb_true_iff in Hw as [Hc Hw]. rewrite Hc.
      unfold len in *. simpl in Hl. rewrite IH; auto. lia.
Qed.

Lemma matchHere_sound (s m r : string) :
  matchHere s = Some (m, r) -> s = m +:+ r /\ segment m.
Proof.
  unfold matchHere. intros H.
  destruct (takeWord 4 s) as [name r1] eqn:H1.
  destruct (len name <? 3)%nat eqn:Hn; [discriminate|].
  destruct r1 as [|c r2]; [discriminate|].
  destruct (Ascii.eqb_spec c "="); [subst c | ].
  2:{ destruct c as [[] [] [] [] [] [] [] []]; try discriminate; congruence. }
  destruct (takeWord 4 r2) as [val r3] eqn:H2.
  destruct (len val <? 1)%nat eqn:Hv; [discriminate|].
  destruct r3 as [|d r4]; [discriminate|].
  destruct (Ascii.eqb_spec d ";"); [subst d | ].
  2:{ destruct d as [[] [] [] [] [] [] [] []]; try discriminate; congruence. }
  inversion H; subst; clear H.
  apply takeWord_split in H1 as (-> & Hl1 & Hw1).
  apply takeWord_split in H2 as (-> & Hl2 & Hw2).
  apply Nat.ltb_ge in Hn, Hv. split.
  - rewrite !append_assoc. simpl. rewrite !append_assoc. reflexivity.
  - exists name, val. repeat split; auto.
Qed.

Lemma matchHere_complete (m r : string) :
  segment m -> matchHere (m +:+ r) = Some (m, r).
Proof.
  intros (name & val & -> & [Hn1 Hn2] & [Hv1 Hv2] & Hwn & Hwv).
  unfold matchHere. rewrite !append_assoc.
  rewrite (takeWord_exact 4 name _ Hwn Hn2) by reflexivity.
  apply Nat.ltb_ge in Hn1 as ->. cbn [String.append].
  rewrite (takeWord_exact 4 val _ Hwv Hv2) by reflexivity.
  apply Nat.ltb_ge in Hv1 as ->. reflexivity.
Qed.

(** A search finds a segment, somewhere in the text. *)
Lemma leftmost_sound (s m r : string) :
  leftmost s = Some (m, r) ->
  exists skipped, s = skipped +:+ m +:+ r /\ segment m.
Proof.
  induction s as [|c s IH]; intros H.
  - discriminate.
  - cbn [leftmost] in H.
    destruct (matchHere (String c s)) as [[m' r']|] eqn:Hm.
    + inversion H; subst. apply matchHere_sound in Hm as [Hs Hseg].
      exists "". auto.
    + destruct (IH H) as (sk & -> & Hseg). exists (String c sk). auto.
Qed.

Lemma segment_len (m : string) : segment m -> (6 <= len m)%nat.
Proof.
  intros (name & val & -> & Hn & Hv & _). rewrite !len_append.
  unfold len in *. simpl. lia.
Qed.

Lemma leftmost_shorter (s m r : string) :
  leftmost s = Some (m, r) -> (len r < len s)%nat.
Proof.
  intros H. apply leftmost_sound in H as (sk & -> & Hseg).
  apply segment_len in Hseg. rewrite !len_append. lia.
Qed.

(** The budget of the loop of [FindAll] never runs out: any larger budget
    finds the same matches. *)
Lemma allMatches_budget (n : nat) (s : string) :
  (len s < n)%nat -> allMatches n s = FindAll s.
Proof.
  unfold FindAll.
  assert (G : forall k a b t, (len t < a)%nat -> (len t < b)%nat ->
              (len t <= k)%nat -> allMatches a t = allMatches b t).
  { induction k as [|k IH]; intros a b t Ha Hb Hk.
    - destruct a, b; try lia. simpl.
      destruct (leftmost t) as [[m r]|] eqn:Hl; [|reflexivity].
      apply leftmost_shorter in Hl. lia.
    - destruct a, b; try lia. simpl.
      destruct (leftmost t) as [[m r]|] eqn:Hl; [|reflexivity].
      apply leftmost_shorter in Hl. f_equal. apply IH; lia. }
  intros H. apply (G (len s)); lia.
Qed.

(** Everything [FindAll] counts is a segment. *)
Lemma FindAll_segments (s : string) : Forall segment (FindAll s).
Proof.
  unfold FindAll. generalize (S (len s)) as n. intros n. revert s.
  induction n as [|n IH]; intros s; simpl; [constructor|].
  destruct (leftmost s) as [[m r]|] eqn:Hl; [|constructor].
  constructor; [|apply IH].
  apply leftmost_sound in Hl as (sk & _ & Hseg). exact Hseg.
Qed.

End Pattern.

(** ** The reply-line validators *)

Section Validators.

(** C2. [outputIsValid] accepts a line exactly when it is longer than 168
    bytes (169 is the least accepted length), begins with [V00=], ends
    with [;], and the matcher of [\w{3,4}=\w{1,4};] finds at least 28
    matches in it, each of them a well-formed [name=value;] segment; when
    one of the conditions fails the validator returns false. *)
Theorem outputIsValid_accepts_exactly (s : string) :
  Main.outputIsValid s re = true
  <-> (169 <= len s)%nat
      /\ (exists t, s = "V00=" +:+ t)
      /\ (exists t, s = t +:+ ";")
      /\ (28 <= length (re s))%nat /\ Forall segment (re s).
Proof.
  unfold Main.outputIsValid. split.
  - intros H.
    destruct (168 <? len s)%nat eqn:Hl; [|discriminate].
    apply Nat.ltb_lt in Hl.
    destruct (_ && _) eqn:Hc in H; [|discriminate].
    apply andb_true_iff in Hc as [Hc Hn].
    apply andb_true_iff in Hc as [Hp Hs].
    apply Nat.leb_le in Hn.
    split; [lia|]. split; [|split; [|split]].
    + apply (slice_to_spec s "V00="); [unfold len in *; simpl; lia | exact Hp].
    + apply HasSuffix_spec. exact Hs.
    + exact Hn.
    + apply FindAll_segments.
  - intros (Hl & Hp & Hs & Hn & _).
    assert (E : (168 <? len s)%nat = true) by (apply Nat.ltb_lt; lia).
    rewrite E.
    assert (Ep : String.eqb (slice_to 4 s) "V00=" = true).
    { apply (slice_to_spec s "V00="); [unfold len in *; simpl; lia | exact Hp]. }
    apply HasSuffix_spec in Hs. apply Nat.leb_le in Hn.
    rewrite Ep, Hs, Hn. reflexivity.
Qed.

(** C6. The validator of the unnamed file also requires the length to be
    strictly less than 215: it rejects every line of 215 bytes or more,
    while the validator of [main.go] accepts each such line that is
    otherwise well-formed, so there is a line that the one accepts and the
    other rejects; and on every line of 169 to 214 bytes the two give the
    same answer. *)
Theorem validators_diverge_above_214 :
  (forall s, (215 <= len s)%nat -> Part000.outputIsValid s re = false)
  /\ (forall s, (215 <= len s)%nat ->
                (exists t, s = "V00=" +:+ t) -> (exists t, s = t +:+ ";") ->
                (28 <= length (re s))%nat ->
                Main.outputIsValid s re = true)
  /\ (exists s, (215 <= len s)%nat
                /\ Main.outputIsValid s re = true
                /\ Part000.outputIsValid s re = false)
  /\ (forall s, (169 <= len s <= 214)%nat ->
                Part000.outputIsValid s re = Main.outputIsValid s re).
Proof.
  split; [|split; [|split]].
  - intros s Hl. unfold Part000.outputIsValid.
    assert (E : (len s <? 215)%nat = false) by (apply Nat.ltb_ge; lia).
    rewrite E, andb_false_r. reflexivity.
  - intros s Hl Hp Hs Hn. unfold Main.outputIsValid.
    assert (E : (168 <? len s)%nat = true) by (apply Nat.ltb_lt; lia).
    rewrite E.
    assert (Ep : String.eqb (slice_to 4 s) "V00=" = true).
    { apply (slice_to_spec s "V00="); [unfold len in *; simpl; lia | exact Hp]. }
    apply HasSuffix_spec in Hs. apply Nat.leb_le in Hn.
    rewrite Ep, Hs, Hn. reflexivity.
  - exists wide_sample. split; [vm_compute; lia|]. split; vm_compute; reflexivity.
  - intros s [H1 H2]. unfold Part000.outputIsValid, Main.outputIsValid.
    assert (E1 : (168 <? len s)%nat = true) by (apply Nat.ltb_lt; lia).
    assert (E2 : (len s <? 215)%nat = true) by (apply Nat.ltb_lt; lia).
    rewrite E1, E2. reflexivity.
Qed.

Lemma validators_diverge_above_214_witness :
  Part000.outputIsValid wide_sample re = false
  /\ Main.outputIsValid wide_sample re = true
  /\ Part000.outputIsValid sample re = Main.outputIsValid sample re.
Proof.
  split; [|split].
  - apply (proj1 validators_diverge_above_214). vm_compute. lia.
  - apply (proj1 (proj2 validators_diverge_above_214)).
    + vm_compute. lia.
    + exists "00ff;V01=0000;V02=0000;V03=0000;V04=0000;V05=0000;V06=0000;V07=0000;V08=0000;T01=0020;T02=0020;T03=0020;T04=0020;T05=0020;T06=0020;T07=0020;T08=0020;S01=0000;S02=0000;S03=0000;S04=0000;S05=0000;S06=0000;S07=0000;S08=0000;S09=0000;S10=0000;PUMP=0001;".
      reflexivity.
    + exists "V00=00ff;V01=0000;V02=0000;V03=0000;V04=0000;V05=0000;V06=0000;V07=0000;V08=0000;T01=0020;T02=0020;T03=0020;T04=0020;T05=0020;T06=0020;T07=0020;T08=0020;S01=0000;S02=0000;S03=0000;S04=0000;S05=0000;S06=0000;S07=0000;S08=0000;S09=0000;S10=0000;PUMP=0001".
      reflexivity.
    + vm_compute. lia.
  - apply (proj2 (proj2 (proj2 validators_diverge_above_214))). vm_compute. lia.
Defined.

(** Whatever the unnamed file's validator accepts, [main.go]'s accepts. *)
Lemma Part000_accepts_less (s : string) :
  Part000.outputIsValid s re = true -> Main.outputIsValid s re = true.
Proof.
  unfold Part000.outputIsValid, Main.outputIsValid.
  destruct (168 <? len s)%nat; simpl; [|discriminate].
  destruct (len s <? 215)%nat; [auto | discriminate].
Qed.

End Validators.

(** ** The parameter registry and the validation of values *)

Section Registry.

Lemma stringInSlice_In (a : string) (l : list string) :
  stringInSlice a l = true <-> In a l.
Proof.
  induction l as [|b l IH]; simpl.
  - split; [discriminate | tauto].
  - destruct (String.eqb_spec b a) as [->|Hne].
    + split; auto.
    + rewrite IH. split; [auto | intros [E|H]; [congruence | exact H]].
Qed.

Lemma stringInSlice_not_In (a : string) (l : list string) :
  stringInSlice a l = false <-> ~ In a l.
Proof.
  rewrite <- stringInSlice_In. destruct (stringInSlice a l); split; congruence.
Qed.

(** The three registries are disjoint. *)
Lemma Vxx_not_Txx (p : string) : In p VxxParams -> stringInSlice p TxxParams = false.
Proof. intros H. simpl in H. intuition (subst; reflexivity). Qed.

Lemma Vxx_not_pump (p : string) : In p VxxParams -> stringInSlice p pumpParams = false.
Proof. intros H. simpl in H. intuition (subst; reflexivity). Qed.

Lemma Txx_not_Vxx (p : string) : In p TxxParams -> stringInSlice p VxxParams = false.
Proof. intros H. simpl in H. intuition (subst; reflexivity). Qed.

Lemma Txx_not_pump (p : string) : In p TxxParams -> stringInSlice p pumpParams = false.
Proof. intros H. simpl in H. intuition (subst; reflexivity). Qed.

Lemma pump_not_Vxx (p : string) : In p pumpParams -> stringInSlice p VxxParams = false.
Proof. intros H. simpl in H. intuition (subst; reflexivity). Qed.

Lemma pump_not_Txx (p : string) : In p pumpParams -> stringInSlice p TxxParams = false.
Proof. intros H. simpl in H. intuition (subst; reflexivity). Qed.

Lemma URLParamValid_In (p : string) :
  URLParamValid p = true
  <-> In p VxxParams \/ In p TxxParams \/ In p pumpParams.
Proof.
  unfold URLParamValid. rewrite <- !stringInSlice_In.
  destruct (stringInSlice p VxxParams), (stringInSlice p TxxParams),
    (stringInSlice p pumpParams); simpl; intuition congruence.
Qed.

(** *** What [ParseInt] takes for a number in base 10 *)

Lemma digit_base10 (c : ascii) (d : Z) :
  digit c = Some d -> (10 <=? d) = false -> isDigit c = true.
Proof.
  intros H1 H2.
  destruct c as [[] [] [] [] [] [] [] []]; vm_compute in H1;
    try discriminate H1; injection H1 as <-;
    first [discriminate H2 | reflexivity].
Qed.

Lemma parseDigits_numeral (s : string) (n : Z) :
  snd (parseDigits s 10 64 n) = None -> allDigits s = true.
Proof.
  revert n. induction s as [|c s IH]; intros n; [reflexivity|].
  cbn [parseDigits allDigits].
  destruct (digit c) as [d|] eqn:Hd; [|discriminate].
  destruct (10 <=? d) eqn:Hb; [discriminate|].
  rewrite (digit_base10 c d Hd Hb).
  destruct (_ <=? n); [discriminate|].
  destruct (_ <? _); [discriminate|]. apply IH.
Qed.

Lemma parseDigits_range (s : string) (base n un : Z) :
  parseDigits s base 64 n = (un, Some ErrRange) -> un = 2 ^ 64 - 1.
Proof.
  revert n. induction s as [|c s IH]; intros n; cbn [parseDigits].
  - discriminate.
  - destruct (digit c) as [d|]; [|discriminate].
    destruct (base <=? d); [discriminate|].
    destruct (_ <=? n); [intros H; inversion H; reflexivity|].
    destruct (_ <? _); [intros H; inversion H; reflexivity|]. apply IH.
Qed.

Lemma ParseUint_numeral (s : string) :
  snd (ParseUint s 10 64) = None -> (0 <? len s)%nat && allDigits s = true.
Proof.
  destruct s as [|c s]; [discriminate|]. unfold ParseUint.
  intros H. apply parseDigits_numeral in H. rewrite H. reflexivity.
Qed.

Lemma ParseUint_range (s : string) (un : Z) :
  ParseUint s 10 64 = (un, Some ErrRange) -> un = 2 ^ 64 - 1.
Proof.
  destruct s as [|c s]; [discriminate|]. apply parseDigits_range.
Qed.

(** What is no numeral does not parse. *)
Lemma ParseInt_numeral (v : string) :
  snd (ParseInt v 10 64) = None -> numeral v = true.
Proof.
  destruct v as [|c v]; [discriminate|]. unfold ParseInt, numeral.
  set (body := if Ascii.eqb c "+" || Ascii.eqb c "-" then v else String c v).
  destruct (ParseUint body 10 64) as [un [[]|]] eqn:Hu.
  - discriminate.
  - apply ParseUint_range in Hu. subst un.
    destruct (Ascii.eqb c "-"); vm_compute; discriminate.
  - intros _. pose proof (ParseUint_numeral body) as Hn.
    rewrite Hu in Hn. specialize (Hn eq_refl). subst body.
    destruct (Ascii.eqb c "+" || Ascii.eqb c "-"); [exact Hn|].
    apply andb_true_iff in Hn as [_ Hn]. exact Hn.
Qed.

Lemma ParseInt_empty : ParseInt "" 10 64 = (0, Some ErrSyntax).
Proof. reflexivity. Qed.

Lemma len_pos (v : string) : (0 <? len v)%nat = false <-> v = "".
Proof.
  destruct v; unfold len; simpl; split; auto; discriminate.
Qed.

End Registry.

Section ValueValidation.

(** The test of [URLValueValid] once the value has parsed to [n]. *)
Lemma URLValueValid_parsed (p v : string) (n : Z) :
  ParseInt v 10 64 = (n, None) ->
  URLValueValid p v
  = (stringInSlice p VxxParams && (0 <=? n) && (n <? 256))
    || (stringInSlice p TxxParams && (0 <=? n) && (n <? 1000)).
Proof.
  intros Hp. unfold URLValueValid.
  destruct (0 <? len v)%nat eqn:Hl.
  - rewrite Hp. destruct (_ && _ && _); [reflexivity|].
    destruct (_ && _ && _); reflexivity.
  - apply len_pos in Hl. subst v. discriminate Hp.
Qed.

Lemma URLValueValid_unparsed (p v : string) (e : NumError) :
  snd (ParseInt v 10 64) = Some e -> v <> "" -> URLValueValid p v = false.
Proof.
  intros He Hv. unfold URLValueValid.
  destruct (0 <? len v)%nat eqn:Hl.
  - destruct (ParseInt v 10 64) as [n [e'|]]; [reflexivity | discriminate].
  - apply len_pos in Hl. contradiction.
Qed.

Lemma URLValueValid_empty (p : string) :
  URLValueValid p "" = stringInSlice p pumpParams.
Proof.
  unfold URLValueValid. change (0 <? len "")%nat with false. cbv iota.
  destruct (stringInSlice p pumpParams); reflexivity.
Qed.

(** The claim C3 fails as it is stated, for every parameter and every
    value that is no number: the empty value is no numeral, and
    [URLValueValid] accepts it for [PUMP_ON]. *)
Lemma empty_value_of_a_toggle_is_valid :
  ~ (forall p v, numeral v = false -> URLValueValid p v = false).
Proof.
  intros H. specialize (H "PUMP_ON" "" eq_refl). discriminate H.
Qed.

(** C3, amended. [URLValueValid] returns false for a value that is no
    decimal numeral, except for the empty value of a toggle parameter,
    which it accepts, and for a value that parses to a negative integer;
    for a [Vxx] (level) parameter it returns true exactly when the value
    parses to an integer of 0..255, for a [Txx] (threshold) parameter
    exactly when it parses to an integer of 0..999; 256 and more, and 1000
    and more, are rejected. *)
Theorem URLValueValid_level_and_threshold (p v : string) :
  (numeral v = false -> (v = "" -> ~ In p pumpParams) ->
   URLValueValid p v = false)
  /\ (In p pumpParams -> URLValueValid p "" = true)
  /\ (forall n, ParseInt v 10 64 = (n, None) -> n < 0 ->
                URLValueValid p v = false)
  /\ (In p VxxParams ->
      (URLValueValid p v = true
       <-> exists n, ParseInt v 10 64 = (n, None) /\ 0 <= n <= 255))
  /\ (In p TxxParams ->
      (URLValueValid p v = true
       <-> exists n, ParseInt v 10 64 = (n, None) /\ 0 <= n <= 999))
  /\ (forall n, ParseInt v 10 64 = (n, None) ->
                (In p VxxParams /\ 256 <= n) \/ (In p TxxParams /\ 1000 <= n) ->
                URLValueValid p v = false).
Proof.
  split; [|split; [|split; [|split; [|split]]]].
  - intros Hnum Hv. destruct v as [|c v'] eqn:Ev.
    + rewrite URLValueValid_empty. apply stringInSlice_not_In. auto.
    + rewrite <- Ev in *.
      destruct (snd (ParseInt v 10 64)) as [e|] eqn:He.
      * apply (URLValueValid_unparsed p v e He). congruence.
      * apply ParseInt_numeral in He. congruence.
  - intros Hin. rewrite URLValueValid_empty. apply stringInSlice_In. exact Hin.
  - intros n Hp Hn. rewrite (URLValueValid_parsed p v n Hp).
    assert (E : (0 <=? n) = false) by (apply Z.leb_gt; lia).
    rewrite E, !andb_false_r. reflexivity.
  - intros Hin. split.
    + intros H. destruct (ParseInt v 10 64) as [n [e|]] eqn:Hp.
      * destruct v as [|c v'].
        -- rewrite URLValueValid_empty, (Vxx_not_pump p Hin) in H. discriminate.
        -- rewrite (URLValueValid_unparsed p _ e) in H; [discriminate| |discriminate].
           rewrite Hp. reflexivity.
      * exists n. split; [reflexivity|].
        rewrite (URLValueValid_parsed p v n Hp), (Vxx_not_Txx p Hin) in H.
        rewrite orb_false_r in H.
        apply andb_true_iff in H as [H H2]. apply andb_true_iff in H as [_ H1].
        apply Z.leb_le in H1. apply Z.ltb_lt in H2. lia.
    + intros (n & Hp & Hn). rewrite (URLValueValid_parsed p v n Hp).
      apply stringInSlice_In in Hin. rewrite Hin.
      assert (E1 : (0 <=? n) = true) by (apply Z.leb_le; lia).
      assert (E2 : (n <? 256) = true) by (apply Z.ltb_lt; lia).
      rewrite E1, E2. reflexivity.
  - intros Hin. split.
    + intros H. destruct (ParseInt v 10 64) as [n [e|]] eqn:Hp.
      * destruct v as [|c v'].
        -- rewrite URLValueValid_empty, (Txx_not_pump p Hin) in H. discriminate.
        -- rewrite (URLValueValid_unparsed p _ e) in H; [discriminate| |discriminate].
           rewrite Hp. reflexivity.
      * exists n. split; [reflexivity|].
        rewrite (URLValueValid_parsed p v n Hp), (Txx_not_Vxx p Hin) in H.
        simpl in H.
        apply andb_true_iff in H as [H H2]. apply andb_true_iff in H as [_ H1].
        apply Z.leb_le in H1. apply Z.ltb_lt in H2. lia.
    + intros (n & Hp & Hn). rewrite (URLValueValid_parsed p v n Hp).
      apply stringInSlice_In in Hin. rewrite Hin.
      assert (E1 : (0 <=? n) = true) by (apply Z.leb_le; lia).
      assert (E2 : (n <? 1000) = true) by (apply Z.ltb_lt; lia).
      rewrite E1, E2. apply orb_true_r.
  - intros n Hp [[Hin Hn]|[Hin Hn]]; rewrite (URLValueValid_parsed p v n Hp).
    + rewrite (Vxx_not_Txx p Hin).
      assert (E : (n <? 256) = false) by (apply Z.ltb_ge; lia).
      rewrite E, andb_false_r. reflexivity.
    + rewrite (Txx_not_Vxx p Hin).
      assert (E : (n <? 1000) = false) by (apply Z.ltb_ge; lia).
      rewrite E, andb_false_r. reflexivity.
Qed.

End ValueValidation.

Lemma URLValueValid_level_and_threshold_witness :
  In "V00" VxxParams /\ URLValueValid "V00" "255" = true.
Proof.
  assert (Hin : In "V00" VxxParams) by (simpl; auto).
  split; [exact Hin|].
  apply (proj1 (proj2 (proj2 (proj2
           (URLValueValid_level_and_threshold "V00" "255")))) Hin).
  exists 255. split; [reflexivity | lia].
Defined.

(** ** Requests that are turned down *)

Section Rejection.


Lemma setHandler_incorrect_param (param value : string) (w : world) :
  URLParamValid param = false ->
  setHandler param value w = Ret tt (answered "error: incorrect param!" w).
Proof. intros H. unfold setHandler. rewrite H. reflexivity. Qed.

Lemma setHandler_incorrect_value (param value : string) (w : world) :
  URLParamValid param = true -> URLValueValid param value = false ->
  setHandler param value w = Ret tt (answered "error: incorrect value!" w).
Proof. intros H1 H2. unfold setHandler. rewrite H1, H2. reflexivity. Qed.

(** C5. A set request whose parameter is in none of the three registries,
    and one for a known parameter whose value fails validation, is answered
    with an error text and returns; nothing is written to the device and
    nothing is read from it. *)
Theorem setHandler_rejects_before_channel (param value : string) (w : world) :
  (~ In param VxxParams /\ ~ In param TxxParams /\ ~ In param pumpParams)
  \/ ((In param VxxParams \/ In param TxxParams \/ In param pumpParams)
      /\ URLValueValid param value = false) ->
  exists msg,
    setHandler param value w = Ret tt (answered msg w)
    /\ (msg = "error: incorrect param!" \/ msg = "error: incorrect value!")
    /\ serial_out (after (setHandler param value w)) = serial_out w
    /\ serial_in (after (setHandler param value w)) = serial_in w.
Proof.
  intros [(H1 & H2 & H3) | [Hk Hv]].
  - assert (E : URLParamValid param = false).
    { destruct (URLParamValid param) eqn:E; [|reflexivity].
      apply URLParamValid_In in E. tauto. }
    exists "error: incorrect param!".
    rewrite (setHandler_incorrect_param param value w E). simpl. auto.
  - apply URLParamValid_In in Hk.
    exists "error: incorrect value!".
    rewrite (setHandler_incorrect_value param value w Hk Hv). simpl. auto.
Qed.

Lemma setHandler_rejects_before_channel_witness :
  exists msg,
    setHandler "unknownParam" "1" (World [sample] [] [] [])
    = Ret tt (answered msg (World [sample] [] [] []))
    /\ (msg = "error: incorrect param!" \/ msg = "error: incorrect value!")
    /\ serial_out (after (setHandler "unknownParam" "1" (World [sample] [] [] [])))
       = []
    /\ serial_in (after (setHandler "unknownParam" "1" (World [sample] [] [] [])))
       = [sample].
Proof.
  apply (setHandler_rejects_before_channel "unknownParam" "1"
           (World [sample] [] [] [])).
  left. simpl. intuition discriminate.
Defined.

(** C10. For [PUMP_ON] and [PUMP_OFF] the value is accepted exactly when it
    is empty, and [setHandler] answers a toggle request that carries a
    value with [error: incorrect value!]; for every [Vxx] and [Txx]
    parameter the empty value is rejected. *)
Theorem toggle_takes_no_value (p v : string) :
  (In p pumpParams -> (URLValueValid p v = true <-> v = ""))
  /\ (In p pumpParams -> v <> "" ->
      forall w, setHandler p v w = Ret tt (answered "error: incorrect value!" w))
  /\ (In p VxxParams \/ In p TxxParams -> URLValueValid p "" = false).
Proof.
  assert (G : In p pumpParams -> v <> "" -> URLValueValid p v = false).
  { intros Hin Hv.
    destruct (ParseInt v 10 64) as [n [e|]] eqn:Hp.
    - apply (URLValueValid_unparsed p v e); [now rewrite Hp | exact Hv].
    - rewrite (URLValueValid_parsed p v n Hp).
      rewrite (pump_not_Vxx p Hin), (pump_not_Txx p Hin). reflexivity. }
  split; [|split].
  - intros Hin. split.
    + intros H. destruct v as [|c v']; [reflexivity|].
      rewrite G in H; [discriminate | exact Hin | discriminate].
    + intros ->. rewrite URLValueValid_empty. now apply stringInSlice_In.
  - intros Hin Hv w. apply setHandler_incorrect_value.
    + apply URLParamValid_In. auto.
    + apply G; assumption.
  - intros [Hin|Hin]; rewrite URLValueValid_empty.
    + apply Vxx_not_pump; exact Hin.
    + apply Txx_not_pump; exact Hin.
Qed.

Lemma toggle_takes_no_value_witness :
  In "PUMP_ON" pumpParams
  /\ URLValueValid "PUMP_ON" "" = true
  /\ setHandler "PUMP_ON" "1" (World [] [] [] [])
     = Ret tt (answered "error: incorrect value!" (World [] [] [] [])).
Proof.
  assert (Hin : In "PUMP_ON" pumpParams) by (simpl; auto).
  split; [exact Hin|]. split.
  - apply (proj1 (toggle_takes_no_value "PUMP_ON" "") Hin). reflexivity.
  - apply (proj1 (proj2 (toggle_takes_no_value "PUMP_ON" "1")) Hin). discriminate.
Defined.

End Rejection.
(** ** Reading the device *)

Section Reading.

Variables (out : list string) (http : list body) (db : list (gmap string Z)).

Lemma singleOutputRead_nil :
  singleOutputRead (World [] out http db) = Blocked (polled [] (World [] out http db)).
Proof. reflexivity. Qed.

(** One turn of [singleOutputRead]: a valid line is returned, an invalid one
    is dropped and the command is sent again. *)
Lemma singleOutputRead_cons (output : string) (rest : list string) :
  singleOutputRead (World (output :: rest) out http db)
  = if Main.outputIsValid output re
    then Ret output (polled rest (World (output :: rest) out http db))
    else singleOutputRead (polled rest (World (output :: rest) out http db)).
Proof.
  unfold singleOutputRead at 1. unfold budget_of. cbn [serial_in length].
  cbn [singleOutputRead_loop]. unfold bind, arduino_Write, scan. cbn [serial_in].
  unfold polled, GET_ALL. cbn [serial_out http_out influx].
  destruct (Main.outputIsValid output re); reflexivity.
Qed.

Lemma readAnswer_nil :
  readAnswer (World [] out http db) = Blocked (polled [] (World [] out http db)).
Proof. reflexivity. Qed.

Lemma readAnswer_cons (output : string) (rest : list string) :
  readAnswer (World (output :: rest) out http db)
  = if Main.outputIsValid output re
    then match outputToMap output with
         | Some answer => Ret answer (polled rest (World (output :: rest) out http db))
         | None => Panic (polled rest (World (output :: rest) out http db))
         end
    else readAnswer (polled rest (World (output :: rest) out http db)).
Proof.
  unfold readAnswer, bind. rewrite singleOutputRead_cons.
  destruct (Main.outputIsValid output re); [|reflexivity].
  destruct (outputToMap output); reflexivity.
Qed.

End Reading.

(** A read that returns has used up one line at least, and no read runs out
    of budget. *)
Lemma readAnswer_progress (w : world) :
  match readAnswer w with
  | Ret _ w' => (length (serial_in w') < length (serial_in w))%nat
  | OutOfBudget _ => False
  | _ => True
  end.
Proof.
  destruct w as [lines out http db]. revert out.
  induction lines as [|output rest IH]; intros out.
  - rewrite readAnswer_nil. exact I.
  - rewrite readAnswer_cons. destruct (Main.outputIsValid output re).
    + destruct (outputToMap output); simpl; [lia | exact I].
    + unfold polled. cbn [serial_out http_out influx].
      specialize (IH (out ++ [GET_ALL])).
      destruct (readAnswer _); simpl in *; [lia | exact I | exact I | exact IH].
Qed.

(** ** The confirmation loops *)

Section Confirmation.

Lemma pumpLoop_step (budget : nat) (param : string) (w : world) :
  pumpLoop (S budget) param w
  = match readAnswer w with
    | Ret answer w' =>
        if pumpTest param answer then w_Write (Json answer) w'
        else pumpLoop budget param w'
    | Panic w' => Panic w'
    | Blocked w' => Blocked w'
    | OutOfBudget w' => OutOfBudget w'
    end.
Proof.
  cbn [pumpLoop]. unfold bind, pumpTest.
  destruct (readAnswer w) as [answer w'| | |]; try reflexivity.
  destruct (String.eqb param "PUMP_ON" && answerIs answer "PUMP" 1);
    [reflexivity|].
  destruct (String.eqb param "PUMP_OFF" && answerIs answer "PUMP" 0);
    reflexivity.
Qed.

Lemma levelLoop_step (budget : nat) (param : string) (n : Z) (w : world) :
  levelLoop (S budget) param n w
  = match readAnswer w with
    | Ret answer w' =>
        if answerIs answer param n then w_Write (Json answer) w'
        else levelLoop budget param n w'
    | Panic w' => Panic w'
    | Blocked w' => Blocked w'
    | OutOfBudget w' => OutOfBudget w'
    end.
Proof.
  cbn [levelLoop]. unfold bind.
  destruct (readAnswer w) as [answer w'| | |]; try reflexivity.
  destruct (answerIs answer param n); reflexivity.
Qed.

(** More budget than there are lines changes nothing. *)
Lemma pumpLoop_budget (param : string) (b : nat) (w : world) :
  (length (serial_in w) < b)%nat -> pumpLoop b param w = pumpConfirm param w.
Proof.
  unfold pumpConfirm, budget_of.
  assert (G : forall k a b w, (length (serial_in w) <= k)%nat ->
              (length (serial_in w) < a)%nat -> (length (serial_in w) < b)%nat ->
              pumpLoop a param w = pumpLoop b param w).
  { clear. induction k as [|k IH]; intros a b w Hk Ha Hb;
      (destruct a as [|a]; [lia|]); (destruct b as [|b]; [lia|]);
      rewrite !pumpLoop_step; pose proof (readAnswer_progress w) as Hp;
      destruct (readAnswer w) as [answer w'| | |]; try reflexivity.
    - lia.
    - destruct (pumpTest param answer); [reflexivity|]. apply IH; lia. }
  intros H. apply (G (length (serial_in w))); lia.
Qed.

Lemma levelLoop_budget (param : string) (n : Z) (b : nat) (w : world) :
  (length (serial_in w) < b)%nat -> levelLoop b param n w = levelConfirm param n w.
Proof.
  unfold levelConfirm, budget_of.
  assert (G : forall k a b w, (length (serial_in w) <= k)%nat ->
              (length (serial_in w) < a)%nat -> (length (serial_in w) < b)%nat ->
              levelLoop a param n w = levelLoop b param n w).
  { clear. induction k as [|k IH]; intros a b w Hk Ha Hb;
      (destruct a as [|a]; [lia|]); (destruct b as [|b]; [lia|]);
      rewrite !levelLoop_step; pose proof (readAnswer_progress w) as Hp;
      destruct (readAnswer w) as [answer w'| | |]; try reflexivity.
    - lia.
    - destruct (answerIs answer param n); [reflexivity|]. apply IH; lia. }
  intros H. apply (G (length (serial_in w))); lia.
Qed.

End Confirmation.

Section ConfirmationTurns.

Variables (out : list string) (http : list body) (db : list (gmap string Z)).

Lemma pumpConfirm_nil (param : string) :
  pumpConfirm param (World [] out http db)
  = Blocked (polled [] (World [] out http db)).
Proof. reflexivity. Qed.

(** One turn of the toggle loop on the next line of the device. *)
Lemma pumpConfirm_cons (param output : string) (rest : list string) :
  pumpConfirm param (World (output :: rest) out http db)
  = let w' := polled rest (World (output :: rest) out http db) in
    if Main.outputIsValid output re
    then match outputToMap output with
         | Some answer =>
             if pumpTest param answer then w_Write (Json answer) w'
             else pumpConfirm param w'
         | None => Panic w'
         end
    else pumpConfirm param w'.
Proof.
  cbv zeta. unfold pumpConfirm at 1. unfold budget_of. cbn [serial_in length].
  rewrite pumpLoop_step, readAnswer_cons.
  destruct (Main.outputIsValid output re).
  - destruct (outputToMap output) as [answer|]; [|reflexivity].
    destruct (pumpTest param answer); [reflexivity|].
    apply pumpLoop_budget. simpl. lia.
  - rewrite <- pumpLoop_step. apply pumpLoop_budget. simpl. lia.
Qed.

Lemma levelConfirm_nil (param : string) (n : Z) :
  levelConfirm param n (World [] out http db)
  = Blocked (polled [] (World [] out http db)).
Proof. reflexivity. Qed.

(** One turn of the level loop on the next line of the device. *)
Lemma levelConfirm_cons (param : string) (n : Z) (output : string)
      (rest : list string) :
  levelConfirm param n (World (output :: rest) out http db)
  = let w' := polled rest (World (output :: rest) out http db) in
    if Main.outputIsValid output re
    then match outputToMap output with
         | Some answer =>
             if answerIs answer param n then w_Write (Json answer) w'
             else levelConfirm param n w'
         | None => Panic w'
         end
    else levelConfirm param n w'.
Proof.
  cbv zeta. unfold levelConfirm at 1. unfold budget_of. cbn [serial_in length].
  rewrite levelLoop_step, readAnswer_cons.
  destruct (Main.outputIsValid output re).
  - destruct (outputToMap output) as [answer|]; [|reflexivity].
    destruct (answerIs answer param n); [reflexivity|].
    apply levelLoop_budget. simpl. lia.
  - rewrite <- levelLoop_step. apply levelLoop_budget. simpl. lia.
Qed.

End ConfirmationTurns.

(** The budget of the model is never what ends a run of a handler: each of
    them returns, panics or waits for the device. *)
Lemma pumpConfirm_in_budget (param : string) (w : world) :
  in_budget (pumpConfirm param w).
Proof.
  destruct w as [lines out http db]. revert out.
  induction lines as [|output rest IH]; intros out.
  - exact I.
  - rewrite pumpConfirm_cons. cbv zeta.
    destruct (Main.outputIsValid output re); [|apply IH].
    destruct (outputToMap output) as [answer|]; [|exact I].
    destruct (pumpTest param answer); [exact I | apply IH].
Qed.

Lemma levelConfirm_in_budget (param : string) (n : Z) (w : world) :
  in_budget (levelConfirm param n w).
Proof.
  destruct w as [lines out http db]. revert out.
  induction lines as [|output rest IH]; intros out.
  - exact I.
  - rewrite levelConfirm_cons. cbv zeta.
    destruct (Main.outputIsValid output re); [|apply IH].
    destruct (outputToMap output) as [answer|]; [|exact I].
    destruct (answerIs answer param n); [exact I | apply IH].
Qed.

Lemma readAnswer_in_budget (w : world) : in_budget (readAnswer w).
Proof.
  pose proof (readAnswer_progress w) as H.
  destruct (readAnswer w); simpl; auto.
Qed.

Lemma setHandler_in_budget (param value : string) (w : world) :
  in_budget (setHandler param value w).
Proof.
  unfold setHandler.
  destruct (URLParamValid param); [|exact I].
  destruct (URLValueValid param value); [|exact I].
  cbn [negb]. unfold bind at 1. cbn [arduino_Write].
  destruct (stringInSlice param VxxParams).
  - unfold bind. destruct (ParseInt value 10 64) as [n [e|]]; [exact I|].
    apply levelConfirm_in_budget.
  - destruct (stringInSlice param pumpParams); [apply pumpConfirm_in_budget|].
    destruct (stringInSlice param TxxParams); [|exact I].
    unfold bind. pose proof (readAnswer_in_budget
      (World (serial_in w) (serial_out w ++ [command param value])
             (http_out w) (influx w))) as H.
    destruct (readAnswer _); simpl in *; auto.
Qed.

Lemma getHandler_in_budget (w : world) : in_budget (getHandler w).
Proof.
  unfold getHandler, bind. pose proof (readAnswer_in_budget w) as H.
  destruct (readAnswer w); simpl in *; auto.
Qed.

(** The code's test of the toggle loop is the reached state of the claim. *)
Lemma pumpTest_reached (param : string) (answer : gmap string Z) :
  pumpTest param answer = true <-> pump_reached param answer.
Proof.
  unfold pumpTest, pump_reached, answerIs.
  rewrite orb_true_iff, !andb_true_iff, !String.eqb_eq, !bool_decide_eq_true.
  reflexivity.
Qed.

(** ** Confirmation of a toggle *)

Section Toggle.

Variable param : string.

Lemma pumpConfirm_keeps_polling (lines : list string)
      (snaps : list (gmap string Z)) (out : list string) (http : list body)
      (db : list (gmap string Z)) :
  fed lines snaps ->
  (forall answer, In answer snaps -> ~ pump_reached param answer) ->
  pumpConfirm param (World lines out http db)
  = Blocked (World [] (out ++ replicate (S (length lines)) GET_ALL) http db).
Proof.
  intros Hfed. revert out.
  induction Hfed as [|line answer lines snaps [Hv Hd] Hfed IH]; intros out Hno.
  - rewrite pumpConfirm_nil. reflexivity.
  - rewrite pumpConfirm_cons, Hv, Hd. cbv zeta.
    destruct (pumpTest param answer) eqn:Ht.
    + apply pumpTest_reached in Ht. exfalso. apply (Hno answer); simpl; auto.
    + unfold polled. cbn [serial_out http_out influx]. rewrite IH.
      * rewrite <- app_assoc. reflexivity.
      * intros a Ha. apply Hno. simpl. auto.
Qed.

Lemma pumpConfirm_returns_first (lines : list string)
      (snaps : list (gmap string Z)) (out : list string) (http : list body)
      (db : list (gmap string Z)) (k : nat) (answer : gmap string Z) :
  fed lines snaps ->
  snaps !! k = Some answer -> pump_reached param answer ->
  (forall j earlier, (j < k)%nat -> snaps !! j = Some earlier ->
                     ~ pump_reached param earlier) ->
  pumpConfirm param (World lines out http db)
  = Ret tt (World (drop (S k) lines) (out ++ replicate (S k) GET_ALL)
                  (http ++ [Json answer]) db).
Proof.
  intros Hfed. revert out k.
  induction Hfed as [|line first lines snaps [Hv Hd] Hfed IH];
    intros out k Hk Hr Hfirst.
  - discriminate.
  - rewrite pumpConfirm_cons, Hv, Hd. cbv zeta. destruct k as [|k].
    + simpl in Hk. injection Hk as ->.
      apply pumpTest_reached in Hr. rewrite Hr. reflexivity.
    + assert (Ht : pumpTest param first = false).
      { destruct (pumpTest param first) eqn:Ht; [|reflexivity].
        apply pumpTest_reached in Ht. exfalso.
        apply (Hfirst 0%nat first); [lia | reflexivity | exact Ht]. }
      rewrite Ht. unfold polled. cbn [serial_out http_out influx].
      rewrite (IH (out ++ [GET_ALL]) k Hk Hr).
      * rewrite <- app_assoc. reflexivity.
      * intros j earlier Hj Hl. apply (Hfirst (S j) earlier); [lia | exact Hl].
Qed.

(** C7. For a toggle parameter and a fed sequence of decoded snapshots, the
    confirmation loop returns at the first snapshot whose [PUMP] field is
    the state asked for (1 for [PUMP_ON], 0 for [PUMP_OFF]), with that
    snapshot as the response and one poll per snapshot up to it; while no
    snapshot of the sequence is in that state it has not returned and waits
    for the next line. *)
Theorem pumpConfirm_stops_at_first_reached (lines : list string)
      (snaps : list (gmap string Z)) (out : list string) (http : list body)
      (db : list (gmap string Z)) :
  fed lines snaps ->
  (forall k answer,
      snaps !! k = Some answer -> pump_reached param answer ->
      (forall j earlier, (j < k)%nat -> snaps !! j = Some earlier ->
                         ~ pump_reached param earlier) ->
      pumpConfirm param (World lines out http db)
      = Ret tt (World (drop (S k) lines) (out ++ replicate (S k) GET_ALL)
                      (http ++ [Json answer]) db))
  /\ ((forall answer, In answer snaps -> ~ pump_reached param answer) ->
      pumpConfirm param (World lines out http db)
      = Blocked (World [] (out ++ replicate (S (length lines)) GET_ALL) http db)).
Proof.
  intros Hfed. split.
  - intros k answer. apply pumpConfirm_returns_first. exact Hfed.
  - apply pumpConfirm_keeps_polling. exact Hfed.
Qed.

End Toggle.

Lemma pumpConfirm_stops_at_first_reached_witness :
  pumpConfirm "PUMP_ON" (World [sample_off; sample] [] [] [])
  = Ret tt (World [] [GET_ALL; GET_ALL] [Json snap_on] []).
Proof.
  assert (Hfed : fed [sample_off; sample] [snap_off; snap_on])
    by (repeat constructor; vm_compute; reflexivity).
  apply (proj1 (pumpConfirm_stops_at_first_reached "PUMP_ON"
                  [sample_off; sample] [snap_off; snap_on] [] [] []
                  Hfed) 1%nat snap_on).
  - reflexivity.
  - left. split; [reflexivity | vm_compute; reflexivity].
  - intros j earlier Hj Hl. destruct j as [|j]; [|lia].
    injection Hl as <-. intros [[_ H]|[H _]]; vm_compute in H; discriminate H.
Defined.

(** ** Lines that do not decode *)

Section DecodeFailure.

Lemma garbled_is_valid : Main.outputIsValid garbled re = true.
Proof. vm_compute. reflexivity. Qed.

Lemma garbled_does_not_decode : outputToMap garbled = None.
Proof. vm_compute. reflexivity. Qed.

(** The claim C9 fails: [garbled] passes validation, does not decode, and
    the poll of a [PUMP_ON] request panics on it although the next line of
    the device would have confirmed the request. *)
Lemma polling_aborts_on_unparsed_field :
  ~ (forall param line rest w',
        outputToMap line = None ->
        setHandler param "" (World (line :: rest) [] [] []) <> Panic w').
Proof.
  intros H.
  apply (H "PUMP_ON" garbled [sample] (World [sample] ["<PUMP_ON;>"; GET_ALL] [] [])).
  - exact garbled_does_not_decode.
  - vm_compute. reflexivity.
Qed.

(** C9, amended. While a request is polled, a reply line that fails
    [outputIsValid] is absorbed: the command is sent again and the poll goes
    on with the next line.  A line that passes [outputIsValid] and does not
    decode is not absorbed: [outputToMap] panics through [check] and the
    poll ends there. *)
Theorem polling_absorbs_invalid_lines_only (param line : string) (n : Z)
      (rest out : list string) (http : list body) (db : list (gmap string Z)) :
  (Main.outputIsValid line re = false ->
   pumpConfirm param (World (line :: rest) out http db)
   = pumpConfirm param (World rest (out ++ [GET_ALL]) http db)
   /\ levelConfirm param n (World (line :: rest) out http db)
      = levelConfirm param n (World rest (out ++ [GET_ALL]) http db))
  /\ (Main.outputIsValid line re = true -> outputToMap line = None ->
      pumpConfirm param (World (line :: rest) out http db)
      = Panic (World rest (out ++ [GET_ALL]) http db)
      /\ levelConfirm param n (World (line :: rest) out http db)
         = Panic (World rest (out ++ [GET_ALL]) http db)).
Proof.
  split.
  - intros Hv. rewrite pumpConfirm_cons, levelConfirm_cons, Hv. split; reflexivity.
  - intros Hv Hd. rewrite pumpConfirm_cons, levelConfirm_cons, Hv, Hd.
    split; reflexivity.
Qed.

Lemma polling_absorbs_invalid_lines_only_witness :
  (pumpConfirm "PUMP_ON" (World ["noise"; sample] [] [] [])
   = pumpConfirm "PUMP_ON" (World [sample] [GET_ALL] [] []))
  /\ pumpConfirm "PUMP_ON" (World [garbled; sample] [] [] [])
     = Panic (World [sample] [GET_ALL] [] []).
Proof.
  split.
  - apply (proj1 (polling_absorbs_invalid_lines_only
                    "PUMP_ON" "noise" 0 [sample] [] [] [])).
    vm_compute. reflexivity.
  - apply (proj2 (polling_absorbs_invalid_lines_only
                    "PUMP_ON" garbled 0 [sample] [] [] [])).
    + vm_compute. reflexivity.
    + vm_compute. reflexivity.
Defined.

End DecodeFailure.

(** ** The telemetry loop *)

Section Telemetry.

(** One cycle on the next line of the device. *)
Lemma DB_cycle_cons (output : string) (rest out : list string)
      (http : list body) (db : list (gmap string Z)) :
  DB_cycle (World (output :: rest) out http db)
  = if Main.outputIsValid output re
    then match outputToMap output with
         | Some point => Ret tt (World rest (out ++ [GET_ALL]) http (db ++ [point]))
         | None => Panic (World rest (out ++ [GET_ALL]) http db)
         end
    else Ret tt (World rest (out ++ [GET_ALL]) http db).
Proof.
  unfold DB_cycle, bind, arduino_Write, scan. cbn [serial_in].
  destruct (Main.outputIsValid output re); [|reflexivity].
  destruct (outputToMap output); reflexivity.
Qed.

Lemma app_one_neq {A} (l : list A) (x : A) : l ++ [x] <> l.
Proof.
  intros H. apply (f_equal (@length A)) in H. rewrite length_app in H.
  simpl in H. lia.
Qed.

(** The claim C8 fails: the cycle that reads [garbled] reads a line that
    passes validation and writes nothing to the database. *)
Lemma telemetry_valid_line_not_written :
  ~ (forall output rest,
        sink_written (World (output :: rest) [] [] [])
                     (DB_cycle (World (output :: rest) [] [] []))
        <-> Main.outputIsValid output re = true).
Proof.
  intros H. destruct (proj2 (H garbled []) garbled_is_valid) as [point Hp].
  vm_compute in Hp. discriminate Hp.
Qed.

(** C8, amended. In a telemetry cycle a point is written to the database if
    and only if the line read passes validation and every field of it
    decodes.  A line that fails validation is skipped: nothing is written
    and the loop goes on with the next cycle.  A line that passes validation
    and does not decode ends the routine with a panic, nothing written. *)
Theorem telemetry_writes_valid_decodable_lines (output : string)
      (rest out : list string) (http : list body) (db : list (gmap string Z)) :
  let w := World (output :: rest) out http db in
  (sink_written w (DB_cycle w)
   <-> Main.outputIsValid output re = true /\ is_Some (outputToMap output))
  /\ (Main.outputIsValid output re = false ->
      DB_cycle w = Ret tt (World rest (out ++ [GET_ALL]) http db)
      /\ forall cycles,
          DB_routine (S cycles) w
          = DB_routine cycles (World rest (out ++ [GET_ALL]) http db))
  /\ (Main.outputIsValid output re = true -> outputToMap output = None ->
      DB_cycle w = Panic (World rest (out ++ [GET_ALL]) http db)).
Proof.
  cbv zeta. unfold sink_written. rewrite DB_cycle_cons.
  destruct (Main.outputIsValid output re) eqn:Hv.
  - destruct (outputToMap output) as [point|] eqn:Hd; cbn [after influx].
    + split; [|split]; try discriminate.
      split; [intros _; split; [reflexivity | eexists; reflexivity]|].
      intros _. exists point. reflexivity.
    + split; [|split]; try discriminate; [|reflexivity].
      split.
      * intros [point Hp]. symmetry in Hp. apply app_one_neq in Hp. contradiction.
      * intros [_ [x Hx]]. discriminate Hx.
  - cbn [after influx]. split; [|split]; try discriminate.
    + split.
      * intros [point Hp]. symmetry in Hp. apply app_one_neq in Hp. contradiction.
      * intros [Hf _]. discriminate Hf.
    + intros _. split; [reflexivity|]. intros cycles.
      cbn [DB_routine]. unfold bind at 1. rewrite DB_cycle_cons, Hv. reflexivity.
Qed.

Lemma telemetry_writes_valid_decodable_lines_witness :
  DB_cycle (World [twenty; sample] [] [] [])
  = Ret tt (World [sample] [GET_ALL] [] [])
  /\ DB_cycle (World [garbled] [] [] []) = Panic (World [] [GET_ALL] [] []).
Proof.
  split.
  - apply (proj1 (proj2 (telemetry_writes_valid_decodable_lines
                           twenty [sample] [] [] []))).
    vm_compute. reflexivity.
  - apply (proj2 (proj2 (telemetry_writes_valid_decodable_lines
                           garbled [] [] [] []))).
    + vm_compute. reflexivity.
    + vm_compute. reflexivity.
Defined.

End Telemetry.

(** ** Decoding a rendered line *)

Section Decoding.

Lemma lacks_append (sep : ascii) (s t : string) :
  lacks sep (s +:+ t) = lacks sep s && lacks sep t.
Proof.
  induction s as [|c s IH]; simpl; [reflexivity|].
  rewrite IH, andb_assoc. reflexivity.
Qed.

Lemma Split_lacks (sep : ascii) (s : string) :
  lacks sep s = true -> Split s sep = [s].
Proof.
  induction s as [|c s IH]; simpl; [reflexivity|].
  intros H. apply andb_true_iff in H as [Hc Hs].
  apply negb_true_iff in Hc. rewrite Hc, (IH Hs). reflexivity.
Qed.

Lemma Split_append (sep : ascii) (a s : string) :
  lacks sep a = true -> Split (a +:+ String sep s) sep = a :: Split s sep.
Proof.
  induction a as [|c a IH]; simpl.
  - intros _. rewrite Ascii.eqb_refl. reflexivity.
  - intros H. apply andb_true_iff in H as [Hc Ha].
    apply negb_true_iff in Hc. rewrite Hc, (IH Ha). reflexivity.
Qed.

Lemma HasPrefix_V (s : string) :
  HasPrefix s "V"
  = match s with
    | EmptyString => false
    | String c _ => Ascii.eqb c "V"
    end.
Proof.
  destruct s as [|c s]; [reflexivity|].
  unfold HasPrefix, slice_to, len. cbn [String.length Nat.leb andb String.substring].
  replace (String.substring 0 0 s) with EmptyString by (destruct s; reflexivity).
  cbn [String.eqb]. destruct (Ascii.eqb c "V"); reflexivity.
Qed.

Lemma HasPrefix_piece (f : string * string) :
  HasPrefix (piece f) "V" = HasPrefix (fst f) "V".
Proof.
  rewrite !HasPrefix_V. unfold piece. destruct (fst f); reflexivity.
Qed.

(** The loop body of [outputToMap] on a piece [name=value]. *)
Lemma decodeField_piece (res : gmap string Z) (f : string * string) :
  lacks "=" (fst f) = true -> lacks "=" (snd f) = true ->
  decodeField res (piece f)
  = match ParseInt (snd f) (if HasPrefix (fst f) "V" then 16 else 10) 64 with
    | (num, None) => Some (<[ fst f := num ]> res)
    | (_, Some _) => None
    end.
Proof.
  intros Hn Ht. unfold decodeField. rewrite HasPrefix_piece.
  unfold piece. cbn [String.append].
  rewrite (Split_append "=" _ _ Hn), (Split_lacks "=" _ Ht).
  reflexivity.
Qed.

Lemma Split_render (fields : list (string * string)) :
  Forall (fun f => fieldOK f = true) fields ->
  removelast (Split (render fields) ";") = map piece fields.
Proof.
  intros H. assert (G : Split (render fields) ";" = map piece fields ++ [""]).
  { induction H as [|f fields Hf H IH]; [reflexivity|].
    cbn [render map String.append]. rewrite Split_append, IH; [reflexivity|].
    unfold fieldOK in Hf. rewrite !andb_true_iff in Hf.
    destruct Hf as [[[[H1 _] H3] _] _].
    unfold piece. rewrite lacks_append. cbn [lacks String.append].
    rewrite H1, H3. reflexivity. }
  rewrite G. apply removelast_last.
Qed.

Lemma rangeFields_app (a b : list string) (res : gmap string Z) :
  rangeFields (a ++ b) res
  = match rangeFields a res with
    | Some res' => rangeFields b res'
    | None => None
    end.
Proof.
  revert res. induction a as [|i a IH]; intros res; [reflexivity|].
  cbn [rangeFields app]. destruct (decodeField res i); [apply IH | reflexivity].
Qed.

(** Readable fields decode, and leave the other names as they were. *)
Lemma rangeFields_ok (fields : list (string * string)) (res : gmap string Z) :
  Forall (fun f => fieldOK f = true) fields ->
  exists res', rangeFields (map piece fields) res = Some res'
               /\ forall key, ~ In key (map fst fields) -> res' !! key = res !! key.
Proof.
  intros H. revert res.
  induction H as [|f fields Hf H IH]; intros res.
  - exists res. split; reflexivity.
  - cbn [map rangeFields].
    unfold fieldOK in Hf. rewrite !andb_true_iff in Hf.
    destruct Hf as [[[[_ H2] _] H4] H5].
    rewrite (decodeField_piece res f H2 H4).
    destruct (ParseInt (snd f) _ 64) as [num [e|]]; [discriminate|].
    destruct (IH (<[ fst f := num ]> res)) as (res' & Hr & Hk).
    exists res'. split; [exact Hr|].
    intros key Hnot. rewrite Hk.
    + apply lookup_insert_ne. intros E. apply Hnot. left. exact E.
    + intros Hin. apply Hnot. right. exact Hin.
Qed.

Lemma byte_cases (P : Z -> bool) :
  forallb P (map Z.of_nat (seq 0 256)) = true ->
  forall v, 0 <= v <= 255 -> P v = true.
Proof.
  intros H v Hv. rewrite forallb_forall in H. apply H.
  apply in_map_iff. exists (Z.to_nat v). split; [lia|].
  apply in_seq. lia.
Qed.

Lemma levelTexts_all (v : Z) : 0 <= v <= 255 -> levelTexts v = true.
Proof. apply byte_cases. vm_compute. reflexivity. Qed.

End Decoding.

(** ** The round trip of a level *)

Section LevelRoundTrip.

Lemma Vxx_fields (param : string) :
  In param VxxParams ->
  HasPrefix param "V" = true /\ HasPrefix param "PUMP" = false
  /\ lacks ";" param = true /\ lacks "=" param = true.
Proof.
  intros H. simpl in H.
  repeat (destruct H as [<-|H]; [repeat split; reflexivity|]). contradiction.
Qed.

(** C4. For every level [v] of 0..255 and every [Vxx] parameter (so for
    [V00]): the command of a set request with the decimal text of [v] is
    [<SET_] param [=] decimal(v) [;>]; a reply line in which the segment of
    that parameter carries the hexadecimal text of [v] (and no later segment
    has its name) decodes, with [v] for that field; the requested value
    parses to [v] as well, so the comparison of the confirmation loop
    succeeds, and on such a reply that passes validation the loop returns
    the decoded snapshot. *)
Theorem level_set_round_trip (v : Z) (param : string)
      (before after : list (string * string)) :
  0 <= v <= 255 -> In param VxxParams ->
  Forall (fun f => fieldOK f = true) before ->
  Forall (fun f => fieldOK f = true) after ->
  ~ In param (map fst after) ->
  let reply := render (before ++ (param, hex v) :: after) in
  URLValueValid param (decimal v) = true
  /\ command param (decimal v) = "<SET_" +:+ param +:+ "=" +:+ decimal v +:+ ";>"
  /\ ParseInt (decimal v) 10 64 = (v, None)
  /\ exists answer,
      outputToMap reply = Some answer
      /\ answer !! param = Some v
      /\ answerIs answer param v = true
      /\ (Main.outputIsValid reply re = true ->
          forall rest out http db,
            levelConfirm param v (World (reply :: rest) out http db)
            = Ret tt (World rest (out ++ [GET_ALL]) (http ++ [Json answer]) db)).
Proof.
  intros Hv Hin Hb Ha Hlast reply.
  destruct (Vxx_fields param Hin) as (HV & HP & Hs & He).
  pose proof (levelTexts_all v Hv) as Ht. unfold levelTexts in Ht.
  rewrite !andb_true_iff in Ht. destruct Ht as [[[[Hd Hh] Hhs] Hhe] Hlen].
  assert (Hdec : ParseInt (decimal v) 10 64 = (v, None)).
  { destruct (ParseInt (decimal v) 10 64) as [n [e|]]; [discriminate|].
    apply Z.eqb_eq in Hd. now subst n. }
  assert (Hhex : ParseInt (hex v) 16 64 = (v, None)).
  { destruct (ParseInt (hex v) 16 64) as [n [e|]]; [discriminate|].
    apply Z.eqb_eq in Hh. now subst n. }
  split; [|split; [|split]].
  - rewrite (URLValueValid_parsed param (decimal v) v Hdec).
    apply stringInSlice_In in Hin. rewrite Hin.
    assert (E1 : (0 <=? v) = true) by (apply Z.leb_le; lia).
    assert (E2 : (v <? 256) = true) by (apply Z.ltb_lt; lia).
    rewrite E1, E2. reflexivity.
  - unfold command. rewrite HP. reflexivity.
  - exact Hdec.
  - assert (Hmid : fieldOK (param, hex v) = true).
    { unfold fieldOK. cbn [fst snd]. rewrite Hs, He, Hhs, Hhe, HV, Hhex.
      reflexivity. }
    assert (Hall : Forall (fun f => fieldOK f = true)
                          (before ++ (param, hex v) :: after)).
    { apply Forall_app. split; [exact Hb|]. constructor; assumption. }
    destruct (rangeFields_ok before ∅ Hb) as (m1 & Hm1 & _).
    destruct (rangeFields_ok after (<[ param := v ]> m1) Ha) as (m2 & Hm2 & Hk).
    assert (Hout : outputToMap reply = Some m2).
    { unfold outputToMap, reply. rewrite (Split_render _ Hall).
      rewrite map_app, rangeFields_app, Hm1. cbn [map rangeFields].
      rewrite decodeField_piece by assumption. cbn [fst snd].
      rewrite HV, Hhex. exact Hm2. }
    assert (Hlook : m2 !! param = Some v).
    { rewrite (Hk param Hlast). apply lookup_insert_eq. }
    assert (His : answerIs m2 param v = true).
    { unfold answerIs. apply bool_decide_eq_true. exact Hlook. }
    exists m2. split; [exact Hout|]. split; [exact Hlook|]. split; [exact His|].
    intros Hvalid rest out http db.
    rewrite levelConfirm_cons, Hvalid, Hout. cbv zeta. rewrite His. reflexivity.
Qed.

Lemma level_set_round_trip_witness :
  command "V00" "255" = "<SET_V00=255;>"
  /\ exists answer,
      outputToMap sample = Some answer
      /\ answer !! "V00" = Some 255
      /\ setHandler "V00" "255" (World [sample] [] [] [])
         = Ret tt (World [] ["<SET_V00=255;>"; GET_ALL] [Json answer] []).
Proof.
  assert (Hv : 0 <= 255 <= 255) by lia.
  assert (Hin : In "V00" VxxParams) by (simpl; auto).
  assert (Ha : Forall (fun f => fieldOK f = true) sample_rest).
  { repeat constructor. }
  assert (Hlast : ~ In "V00" (map fst sample_rest)).
  { simpl. intuition discriminate. }
  assert (Hb : Forall (fun f => fieldOK f = true) []) by constructor.
  destruct (level_set_round_trip 255 "V00" [] sample_rest Hv Hin Hb Ha Hlast)
    as (_ & Hc & _ & answer & Hout & Hlook & _ & Hconf).
  split; [exact Hc|].
  exists answer. split; [exact Hout|]. split; [exact Hlook|].
  specialize (Hconf eq_refl [] ["<SET_V00=255;>"] [] []).
  exact Hconf.
Defined.

End LevelRoundTrip.

(** ** The channel under concurrent goroutines *)

Section SharedChannel.

(** A telemetry cycle does on the channel what [roundTrip] says: the command,
    then one line. *)
Lemma DB_cycle_channel (w : world) :
  channel (after (DB_cycle w)) = channel (after (performAll roundTrip w)).
Proof.
  destruct w as [[|output rest] out http db].
  - reflexivity.
  - rewrite DB_cycle_cons.
    destruct (Main.outputIsValid output re); [|reflexivity].
    destruct (outputToMap output); reflexivity.
Qed.

Lemma w_Write_channel (b : body) (w : world) :
  channel (after (w_Write b w)) = channel w.
Proof. reflexivity. Qed.

(** A [/getall] request does a number of round trips, one at least. *)
Lemma getHandler_channel (w : world) :
  exists turns, (1 <= turns)%nat
    /\ channel (after (getHandler w))
       = channel (after (performAll (roundTrips turns) w)).
Proof.
  destruct w as [lines out http db]. revert out.
  induction lines as [|output rest IH]; intros out.
  - exists 1%nat. split; [lia | reflexivity].
  - unfold getHandler, bind in *. rewrite readAnswer_cons.
    destruct (Main.outputIsValid output re).
    + exists 1%nat. split; [lia|].
      destruct (outputToMap output); reflexivity.
    + destruct (IH (out ++ [GET_ALL])) as (turns & Ht & E).
      exists (S turns). split; [lia|]. exact E.
Qed.





Lemma performAll_turn (turns : nat) (output : string) (rest out : list string)
      (http : list body) (db : list (gmap string Z)) :
  performAll (roundTrips (S turns)) (World (output :: rest) out http db)
  = performAll (roundTrips turns) (World rest (out ++ [GET_ALL]) http db).
Proof. reflexivity. Qed.

Lemma pumpConfirm_channel (param : string) (w : world) :
  exists turns, (1 <= turns)%nat
    /\ channel (after (pumpConfirm param w))
       = channel (after (performAll (roundTrips turns) w)).
Proof.
  destruct w as [lines out http db]. revert out.
  induction lines as [|output rest IH]; intros out.
  - exists 1%nat. split; [lia | reflexivity].
  - rewrite pumpConfirm_cons. cbv zeta. unfold polled.
    cbn [serial_out http_out influx].
    destruct (IH (out ++ [GET_ALL])) as (turns & Ht & E).
    destruct (Main.outputIsValid output re).
    + destruct (outputToMap output) as [answer|];
        [|exists 1%nat; split; [lia | reflexivity]].
      destruct (pumpTest param answer); [exists 1%nat; split; [lia | reflexivity]|].
      exists (S turns). split; [lia|]. rewrite performAll_turn. exact E.
    + exists (S turns). split; [lia|]. rewrite performAll_turn. exact E.
Qed.

Lemma levelConfirm_channel (param : string) (n : Z) (w : world) :
  exists turns, (1 <= turns)%nat
    /\ channel (after (levelConfirm param n w))
       = channel (after (performAll (roundTrips turns) w)).
Proof.
  destruct w as [lines out http db]. revert out.
  induction lines as [|output rest IH]; intros out.
  - exists 1%nat. split; [lia | reflexivity].
  - rewrite levelConfirm_cons. cbv zeta. unfold polled.
    cbn [serial_out http_out influx].
    destruct (IH (out ++ [GET_ALL])) as (turns & Ht & E).
    destruct (Main.outputIsValid output re).
    + destruct (outputToMap output) as [answer|];
        [|exists 1%nat; split; [lia | reflexivity]].
      destruct (answerIs answer param n); [exists 1%nat; split; [lia | reflexivity]|].
      exists (S turns). split; [lia|]. rewrite performAll_turn. exact E.
    + exists (S turns). split; [lia|]. rewrite performAll_turn. exact E.
Qed.

(** A set request that passes validation does on the channel what
    [setRequest] says: its command, and then round trips, one at least. *)
Lemma setHandler_channel (param value : string) (w : world) :
  URLParamValid param = true -> URLValueValid param value = true ->
  exists turns, (1 <= turns)%nat
    /\ channel (after (setHandler param value w))
       = channel (after (performAll (setRequest (command param value) turns) w)).
Proof.
  intros Hp Hv. unfold setHandler. rewrite Hp, Hv. cbn [negb].
  unfold bind at 1. cbn [arduino_Write].
  set (w1 := World (serial_in w) (serial_out w ++ [command param value])
                   (http_out w) (influx w)).
  assert (G : forall o : outcome unit,
             (exists turns, (1 <= turns)%nat
                /\ channel (after o) = channel (after (performAll (roundTrips turns) w1))) ->
             exists turns, (1 <= turns)%nat
                /\ channel (after o)
                   = channel (after (performAll
                                       (setRequest (command param value) turns) w))).
  { intros o (turns & Ht & E). exists turns. split; [exact Ht|]. exact E. }
  apply G.
  destruct (stringInSlice param VxxParams) eqn:HV.
  - unfold bind.
    destruct (ParseInt value 10 64) as [n [e|]] eqn:Hn.
    + exfalso. apply stringInSlice_In in HV. destruct value as [|c value'].
      * rewrite URLValueValid_empty, (Vxx_not_pump param HV) in Hv. discriminate.
      * rewrite (URLValueValid_unparsed param _ e) in Hv;
          [discriminate | now rewrite Hn | discriminate].
    + cbn [check ret]. apply levelConfirm_channel.
  - destruct (stringInSlice param pumpParams) eqn:HP; [apply pumpConfirm_channel|].
    destruct (stringInSlice param TxxParams) eqn:HT; [apply getHandler_channel|].
    unfold URLParamValid in Hp. rewrite HV, HT, HP in Hp. discriminate.
Qed.






End SharedChannel.

(** * Further properties of the code *)

(** ** What the matcher finds fits in the line *)

Section MatchesFit.

Lemma allMatches_fit (n : nat) (s : string) :
  (6 * length (allMatches n s) <= len s)%nat.
Proof.
  revert s. induction n as [|n IH]; intros s; cbn [allMatches]; [simpl; lia|].
  destruct (leftmost s) as [[m r]|] eqn:Hl; [|simpl; lia].
  apply leftmost_sound in Hl as (sk & -> & Hseg).
  apply segment_len in Hseg. specialize (IH r).
  rewrite !len_append. cbn [length]. lia.
Qed.

(** X1. The matches of the pattern do not overlap, so a line with 28 of
    them has 168 bytes at least: among the lines that begin with [V00=],
    end with [;] and have 28 matches, the length test of [outputIsValid]
    turns down the lines of exactly 168 bytes and no other. *)
Theorem outputIsValid_length_test (s : string) :
  (exists t, s = "V00=" +:+ t) -> (exists t, s = t +:+ ";") ->
  (28 <= length (re s))%nat ->
  (168 <= len s)%nat
  /\ (Main.outputIsValid s re = false <-> len s = 168%nat).
Proof.
  intros Hp Hs Hn.
  assert (Hfit : (168 <= len s)%nat).
  { pose proof (allMatches_fit (S (len s)) s) as H.
    unfold re, FindAll in Hn. lia. }
  split; [exact Hfit|].
  assert (Ep : String.eqb (slice_to 4 s) "V00=" = true).
  { apply (slice_to_spec s "V00="); [unfold len in *; simpl; lia | exact Hp]. }
  apply HasSuffix_spec in Hs. apply Nat.leb_le in Hn.
  unfold Main.outputIsValid. rewrite Ep, Hs, Hn. cbn [andb].
  destruct (168 <? len s)%nat eqn:Hl.
  - apply Nat.ltb_lt in Hl. split; [discriminate | lia].
  - apply Nat.ltb_ge in Hl. split; [lia | reflexivity].
Qed.

Lemma outputIsValid_length_test_witness :
  (168 <= len tight)%nat
  /\ (Main.outputIsValid tight re = false <-> len tight = 168%nat).
Proof.
  apply (outputIsValid_length_test tight).
  - exists "0;V01=0;V02=0;V03=0;V04=0;V05=0;V06=0;V07=0;V08=0;T01=0;T02=0;T03=0;T04=0;T05=0;T06=0;T07=0;T08=0;S01=0;S02=0;S03=0;S04=0;S05=0;S06=0;S07=0;S08=0;S09=0;S10=0;PMP=0;".
    reflexivity.
  - exists "V00=0;V01=0;V02=0;V03=0;V04=0;V05=0;V06=0;V07=0;V08=0;T01=0;T02=0;T03=0;T04=0;T05=0;T06=0;T07=0;T08=0;S01=0;S02=0;S03=0;S04=0;S05=0;S06=0;S07=0;S08=0;S09=0;S10=0;PMP=0".
    reflexivity.
  - vm_compute. lia.
Defined.

End MatchesFit.

(** ** What [outputToMap] makes of a line *)

Section DecodedLines.

Lemma Split_cons (s : string) (sep : ascii) :
  exists first others, Split s sep = first :: others.
Proof.
  induction s as [|c s (first & others & IH)]; cbn [Split].
  - eauto.
  - destruct (Ascii.eqb c sep); [eauto|]. rewrite IH. eauto.
Qed.

(** Splitting distributes over a separator. *)
Lemma Split_concat (sep : ascii) (a b : string) :
  Split (a +:+ String sep b) sep = Split a sep ++ Split b sep.
Proof.
  induction a as [|c a IH]; cbn [String.append Split].
  - rewrite Ascii.eqb_refl. reflexivity.
  - rewrite IH. destruct (Ascii.eqb c sep); [reflexivity|].
    destruct (Split_cons a sep) as (first & others & ->). reflexivity.
Qed.

Lemma removelast_Split_tail (body tail : string) :
  lacks ";" tail = true ->
  removelast (Split (body +:+ String ";" tail) ";") = Split body ";".
Proof.
  intros H. rewrite Split_concat, (Split_lacks ";" tail H).
  apply removelast_last.
Qed.

(** X2. [outputToMap] drops what follows the last [;] of the line, whatever
    it is, and a line without [;] decodes to the empty map. *)
Theorem outputToMap_ignores_tail (body tail : string) :
  lacks ";" tail = true ->
  outputToMap (body +:+ ";" +:+ tail) = outputToMap (body +:+ ";")
  /\ outputToMap tail = Some ∅.
Proof.
  intros H. split.
  - unfold outputToMap. cbn [String.append].
    rewrite (removelast_Split_tail body tail H).
    rewrite (removelast_Split_tail body "" eq_refl). reflexivity.
  - unfold outputToMap. rewrite (Split_lacks ";" tail H). reflexivity.
Qed.

Lemma outputToMap_ignores_tail_witness :
  outputToMap ("PUMP=1" +:+ ";" +:+ "V00=f") = outputToMap ("PUMP=1" +:+ ";")
  /\ outputToMap "V00=f" = Some ∅.
Proof.
  apply (outputToMap_ignores_tail "PUMP=1" "V00=f"). reflexivity.
Defined.

Lemma Split_render_then (fields : list (string * string)) (s : string) :
  Forall (fun f => fieldOK f = true) fields ->
  Split (render fields +:+ s) ";" = map piece fields ++ Split s ";".
Proof.
  intros H. induction H as [|f fields Hf H IH]; [reflexivity|].
  cbn [render map]. rewrite !append_assoc. cbn [String.append].
  rewrite Split_append, IH; [reflexivity|].
  unfold fieldOK in Hf. rewrite !andb_true_iff in Hf.
  destruct Hf as [[[[H1 _] H3] _] _].
  unfold piece. rewrite lacks_append. cbn [lacks String.append].
  rewrite H1, H3. reflexivity.
Qed.

Lemma removelast_app_cons {A} (l : list A) (x : A) (l' : list A) :
  removelast (l ++ x :: l') = l ++ removelast (x :: l').
Proof. apply removelast_app. discriminate. Qed.

(** X3. A segment without [=] (an empty one between two [;] too) makes
    [outputToMap] panic on the index [splitted_i[1]], whatever readable
    fields come before it and whatever follows. *)
Theorem outputToMap_panics_without_equals (before : list (string * string))
      (junk rest : string) :
  Forall (fun f => fieldOK f = true) before ->
  lacks "=" junk = true -> lacks ";" junk = true ->
  outputToMap (render before +:+ junk +:+ ";" +:+ rest) = None.
Proof.
  intros Hb He Hs. unfold outputToMap.
  rewrite (Split_render_then before _ Hb). cbn [String.append].
  rewrite (Split_append ";" junk rest Hs).
  destruct (Split_cons rest ";") as (first & others & ->).
  rewrite removelast_app_cons. cbn [removelast].
  replace (junk :: match others with [] => [] | _ :: _ => first :: removelast others end)
    with ([junk] ++ match others with [] => [] | _ :: _ => first :: removelast others end)
    by reflexivity.
  rewrite rangeFields_app.
  destruct (rangeFields_ok before ∅ Hb) as (m & -> & _).
  rewrite rangeFields_app. cbn [rangeFields]. unfold decodeField.
  rewrite (Split_lacks "=" junk He). reflexivity.
Qed.

Lemma outputToMap_panics_without_equals_witness :
  outputToMap (render [("V00", "ff")] +:+ "" +:+ ";" +:+ "PUMP=1;") = None.
Proof.
  apply (outputToMap_panics_without_equals [("V00", "ff")] "" "PUMP=1;").
  - repeat constructor.
  - reflexivity.
  - reflexivity.
Defined.

Lemma fieldOK_decodes (res : gmap string Z) (f : string * string) :
  fieldOK f = true ->
  decodeField res (piece f) = Some (<[ fst f := fieldValue f ]> res).
Proof.
  intros Hf. unfold fieldOK in Hf. rewrite !andb_true_iff in Hf.
  destruct Hf as [[[[_ H2] _] H4] H5].
  rewrite (decodeField_piece res f H2 H4). unfold fieldValue.
  destruct (ParseInt (snd f) _ 64) as [num [e|]]; [discriminate | reflexivity].
Qed.

Lemma rangeFields_lastValue (fields : list (string * string))
      (res : gmap string Z) :
  Forall (fun f => fieldOK f = true) fields ->
  exists res', rangeFields (map piece fields) res = Some res'
    /\ forall key, res' !! key = match lastValue key fields with
                                 | Some z => Some z
                                 | None => res !! key
                                 end.
Proof.
  intros H. revert res. induction H as [|f fields Hf H IH]; intros res.
  - exists res. split; reflexivity.
  - cbn [map rangeFields]. rewrite (fieldOK_decodes res f Hf).
    destruct (IH (<[ fst f := fieldValue f ]> res)) as (res' & Hr & Hk).
    exists res'. split; [exact Hr|]. intros key. rewrite Hk. cbn [lastValue].
    destruct (lastValue key fields); [reflexivity|].
    destruct (String.eqb_spec (fst f) key) as [->|Hne].
    + apply lookup_insert_eq.
    + apply lookup_insert_ne. exact Hne.
Qed.

(** X4. A line of readable fields decodes, and the map holds for every name
    the value of the last field of that name (hexadecimal when the name
    begins with [V], decimal otherwise) and nothing for a name that no
    field has: later segments overwrite earlier ones. *)
Theorem outputToMap_last_field_wins (fields : list (string * string)) :
  Forall (fun f => fieldOK f = true) fields ->
  exists answer,
    outputToMap (render fields) = Some answer
    /\ forall key, answer !! key = lastValue key fields.
Proof.
  intros H. destruct (rangeFields_lastValue fields ∅ H) as (m & Hm & Hk).
  exists m. split.
  - unfold outputToMap. rewrite (Split_render fields H). exact Hm.
  - intros key. rewrite Hk. destruct (lastValue key fields); [reflexivity|].
    apply lookup_empty.
Qed.

Lemma outputToMap_last_field_wins_witness :
  exists answer,
    outputToMap "V00=0a;PUMP=0;V00=ff;" = Some answer
    /\ forall key, answer !! key
                   = lastValue key [("V00", "0a"); ("PUMP", "0"); ("V00", "ff")].
Proof.
  apply (outputToMap_last_field_wins [("V00", "0a"); ("PUMP", "0"); ("V00", "ff")]).
  repeat constructor.
Defined.

End DecodedLines.

Section SentinelField.

Lemma decodeField_keeps (res res' : gmap string Z) (i key : string) :
  decodeField res i = Some res' -> is_Some (res !! key) -> is_Some (res' !! key).
Proof.
  unfold decodeField. destruct (Split i "=" !! 1%nat) as [text|]; [|discriminate].
  destruct (ParseInt text _ 64) as [num [e|]]; [discriminate|].
  intros H Hk. injection H as <-.
  apply lookup_insert_is_Some. destruct (decide (hd "" (Split i "=") = key)); auto.
Qed.

Lemma rangeFields_keeps (pieces : list string) (res res' : gmap string Z)
      (key : string) :
  rangeFields pieces res = Some res' -> is_Some (res !! key) ->
  is_Some (res' !! key).
Proof.
  revert res. induction pieces as [|i pieces IH]; intros res; cbn [rangeFields].
  - intros H Hk. injection H as <-. exact Hk.
  - destruct (decodeField res i) as [res1|] eqn:Hd; [|discriminate].
    intros H Hk. apply (IH res1 H). apply (decodeField_keeps res res1 i key Hd Hk).
Qed.

Lemma decodeField_V00 (res res' : gmap string Z) (p : string) :
  decodeField res ("V00=" +:+ p) = Some res' -> is_Some (res' !! "V00").
Proof.
  unfold decodeField.
  change ("V00=" +:+ p) with ("V00" +:+ String "=" p).
  rewrite (Split_concat "=" "V00" p).
  destruct (Split_cons p "=") as (q & qs & ->).
  cbn [Split Ascii.eqb Bool.eqb app hd]. cbn.
  destruct (ParseInt q _ 64) as [num [e|]]; [discriminate|].
  intros H. injection H as <-. rewrite lookup_insert_eq. eauto.
Qed.

(** X5. Every line that passes [outputIsValid] and decodes gives a map with
    the field [V00]: no handler ever answers with a snapshot that lacks
    it. *)
Theorem valid_snapshot_has_V00 (s : string) (answer : gmap string Z) :
  Main.outputIsValid s re = true -> outputToMap s = Some answer ->
  is_Some (answer !! "V00").
Proof.
  intros Hv Hd. unfold Main.outputIsValid in Hv.
  destruct (168 <? len s)%nat eqn:Hl; [|discriminate].
  apply Nat.ltb_lt in Hl.
  destruct (_ && _) eqn:Hc in Hv; [|discriminate].
  apply andb_true_iff in Hc as [Hc _]. apply andb_true_iff in Hc as [Hp Hs].
  apply (slice_to_spec s "V00=") in Hp; [|unfold len in *; simpl; lia].
  apply HasSuffix_spec in Hs. destruct Hp as [t Ht]. destruct Hs as [t' Ht'].
  assert (E : exists u, t' = "V00=" +:+ u).
  { rewrite Ht in Ht'.
    destruct t' as [|c1 [|c2 [|c3 [|c4 u]]]]; cbn in Ht';
      try (injection Ht'; intros; discriminate).
    injection Ht' as <- <- <- <- _. exists u. reflexivity. }
  destruct E as [u ->].
  unfold outputToMap in Hd. rewrite Ht' in Hd.
  rewrite (removelast_Split_tail _ "" eq_refl) in Hd.
  destruct (Split_cons u ";") as (p & ps & Hu).
  assert (Hsp : Split ("V00=" +:+ u) ";" = ("V00=" +:+ p) :: ps).
  { cbn [String.append Split]. rewrite Hu. reflexivity. }
  rewrite Hsp in Hd. cbn [rangeFields] in Hd.
  destruct (decodeField ∅ ("V00=" +:+ p)) as [m1|] eqn:H1; [|discriminate].
  apply (rangeFields_keeps ps m1 answer "V00" Hd).
  apply (decodeField_V00 ∅ m1 p H1).
Qed.

Lemma valid_snapshot_has_V00_witness : is_Some (snap_on !! "V00").
Proof.
  apply (valid_snapshot_has_V00 sample snap_on).
  - vm_compute. reflexivity.
  - vm_compute. reflexivity.
Defined.

End SentinelField.

(** ** Reading until a line is valid *)

Section FirstValid.

Variables (http : list body) (db : list (gmap string Z)).

Lemma readAnswer_skips (skipped : list string) (good : string)
      (rest out : list string) :
  Forall (fun line => Main.outputIsValid line re = false) skipped ->
  Main.outputIsValid good re = true ->
  readAnswer (World (skipped ++ good :: rest) out http db)
  = match outputToMap good with
    | Some answer =>
        Ret answer (World rest (out ++ replicate (S (length skipped)) GET_ALL) http db)
    | None =>
        Panic (World rest (out ++ replicate (S (length skipped)) GET_ALL) http db)
    end.
Proof.
  intros Hs Hg. revert out.
  induction Hs as [|line skipped Hl Hs IH]; intros out; cbn [app].
  - rewrite readAnswer_cons, Hg. reflexivity.
  - rewrite readAnswer_cons, Hl. unfold polled. cbn [serial_out http_out influx].
    rewrite IH. cbn [length replicate]. rewrite <- !app_assoc. reflexivity.
Qed.

(** X6. [singleOutputRead] returns the first line of the device that passes
    validation, after one [<GET_ALL;>] for each line read up to it; the lines
    before it are dropped.  While no line passes it has not returned, and a
    further command is out. *)
Theorem singleOutputRead_returns_first_valid (lines out : list string) :
  (forall skipped good rest,
      first_valid lines skipped good rest ->
      singleOutputRead (World lines out http db)
      = Ret good (World rest (out ++ replicate (S (length skipped)) GET_ALL)
                        http db))
  /\ (Forall (fun line => Main.outputIsValid line re = false) lines ->
      singleOutputRead (World lines out http db)
      = Blocked (World [] (out ++ replicate (S (length lines)) GET_ALL) http db)).
Proof.
  split.
  - intros skipped good rest (-> & Hs & Hg). revert out.
    induction Hs as [|line skipped Hl Hs IH]; intros out; cbn [app].
    + rewrite singleOutputRead_cons, Hg. reflexivity.
    + rewrite singleOutputRead_cons, Hl. unfold polled.
      cbn [serial_out http_out influx]. rewrite IH.
      cbn [length replicate]. rewrite <- !app_assoc. reflexivity.
  - intros H. revert out. induction H as [|line lines Hl H IH]; intros out.
    + rewrite singleOutputRead_nil. reflexivity.
    + rewrite singleOutputRead_cons, Hl. unfold polled.
      cbn [serial_out http_out influx]. rewrite IH.
      cbn [length replicate]. rewrite <- !app_assoc. reflexivity.
Qed.

(** X7. [getHandler] answers with the decoded first valid line of the device,
    whatever the lines before it were, and panics with no answer when that
    line does not decode. *)
Theorem getHandler_answers_first_valid (lines out skipped rest : list string)
      (good : string) :
  first_valid lines skipped good rest ->
  getHandler (World lines out http db)
  = match outputToMap good with
    | Some answer =>
        Ret tt (World rest (out ++ replicate (S (length skipped)) GET_ALL)
                      (http ++ [Json answer]) db)
    | None =>
        Panic (World rest (out ++ replicate (S (length skipped)) GET_ALL) http db)
    end.
Proof.
  intros (-> & Hs & Hg). unfold getHandler, bind.
  rewrite (readAnswer_skips skipped good rest out Hs Hg).
  destruct (outputToMap good); reflexivity.
Qed.

(** X8. A set request for a [Txx] parameter is not confirmed: after the
    command the handler answers with the first valid snapshot it reads,
    whether or not the snapshot shows the value. *)
Theorem setHandler_threshold_is_not_confirmed (param value : string)
      (lines out skipped rest : list string) (good : string)
      (answer : gmap string Z) :
  In param TxxParams -> URLValueValid param value = true ->
  first_valid lines skipped good rest -> outputToMap good = Some answer ->
  setHandler param value (World lines out http db)
  = Ret tt (World rest
                  (out ++ ("<SET_" +:+ param +:+ "=" +:+ value +:+ ";>")
                       :: replicate (S (length skipped)) GET_ALL)
                  (http ++ [Json answer]) db).
Proof.
  intros Hin Hv (-> & Hs & Hg) Hd. unfold setHandler.
  assert (Hp : URLParamValid param = true) by (apply URLParamValid_In; auto).
  rewrite Hp, Hv. cbn [negb]. unfold bind at 1. cbn [arduino_Write].
  rewrite (Txx_not_Vxx param Hin), (Txx_not_pump param Hin).
  apply stringInSlice_In in Hin as Hin'. rewrite Hin'.
  unfold bind. cbn [serial_in serial_out http_out influx].
  rewrite (readAnswer_skips skipped good rest _ Hs Hg), Hd.
  assert (Hc : command param value = "<SET_" +:+ param +:+ "=" +:+ value +:+ ";>").
  { unfold command. simpl in Hin.
    repeat (destruct Hin as [<-|Hin]; [reflexivity|]). contradiction. }
  rewrite Hc. unfold w_Write. cbn [serial_in serial_out http_out influx].
  rewrite <- app_assoc. reflexivity.
Qed.

End FirstValid.

Lemma singleOutputRead_returns_first_valid_witness :
  singleOutputRead (World ["noise"; twenty; sample; garbled] [] [] [])
  = Ret sample (World [garbled] [GET_ALL; GET_ALL; GET_ALL] [] []).
Proof.
  apply (proj1 (singleOutputRead_returns_first_valid [] []
                  ["noise"; twenty; sample; garbled] [])
               ["noise"; twenty] sample [garbled]).
  split; [reflexivity|]. split; [|vm_compute; reflexivity].
  repeat constructor; vm_compute; reflexivity.
Defined.

Lemma getHandler_answers_first_valid_witness :
  getHandler (World ["noise"; sample] [] [] [])
  = match outputToMap sample with
    | Some answer => Ret tt (World [] [GET_ALL; GET_ALL] [Json answer] [])
    | None => Panic (World [] [GET_ALL; GET_ALL] [] [])
    end.
Proof.
  apply (getHandler_answers_first_valid [] [] ["noise"; sample] [] ["noise"] []
                                        sample).
  split; [reflexivity|]. split; [|vm_compute; reflexivity].
  repeat constructor; vm_compute; reflexivity.
Defined.

Lemma setHandler_threshold_is_not_confirmed_witness :
  setHandler "T01" "80" (World [sample] [] [] [])
  = Ret tt (World [] ["<SET_T01=80;>"; GET_ALL] [Json snap_on] []).
Proof.
  apply (setHandler_threshold_is_not_confirmed [] [] "T01" "80" [sample] [] []
                                                [] sample snap_on).
  - simpl. auto.
  - vm_compute. reflexivity.
  - split; [reflexivity|]. split; [constructor | vm_compute; reflexivity].
  - vm_compute. reflexivity.
Defined.

(** ** Confirmation of a level *)

Section Level.

Variables (param : string) (n : Z).

Lemma answerIs_spec (answer : gmap string Z) (key : string) (z : Z) :
  answerIs answer key z = true <-> answer !! key = Some z.
Proof. unfold answerIs. apply bool_decide_eq_true. Qed.

(** X9. The confirmation loop of a [Vxx] request returns at the first
    snapshot in which the field of the parameter is exactly the requested
    integer, with that snapshot as the response; while no snapshot has the
    value there (also when the field is missing from every snapshot) it has
    not returned and waits for the next line. *)
Theorem levelConfirm_stops_at_first_equal (lines : list string)
      (snaps : list (gmap string Z)) (out : list string) (http : list body)
      (db : list (gmap string Z)) :
  fed lines snaps ->
  (forall k answer,
      snaps !! k = Some answer -> answer !! param = Some n ->
      (forall j earlier, (j < k)%nat -> snaps !! j = Some earlier ->
                         earlier !! param <> Some n) ->
      levelConfirm param n (World lines out http db)
      = Ret tt (World (drop (S k) lines) (out ++ replicate (S k) GET_ALL)
                      (http ++ [Json answer]) db))
  /\ ((forall answer, In answer snaps -> answer !! param <> Some n) ->
      levelConfirm param n (World lines out http db)
      = Blocked (World [] (out ++ replicate (S (length lines)) GET_ALL) http db)).
Proof.
  intros Hfed. split.
  - revert out.
    induction Hfed as [|line first lines snaps [Hv Hd] Hfed IH];
      intros out k answer Hk Hr Hfirst.
    + discriminate.
    + rewrite levelConfirm_cons, Hv, Hd. cbv zeta. destruct k as [|k].
      * simpl in Hk. injection Hk as ->.
        apply answerIs_spec in Hr. rewrite Hr. reflexivity.
      * assert (Ht : answerIs first param n = false).
        { destruct (answerIs first param n) eqn:Ht; [|reflexivity].
          apply answerIs_spec in Ht. exfalso.
          apply (Hfirst 0%nat first); [lia | reflexivity | exact Ht]. }
        rewrite Ht. unfold polled. cbn [serial_out http_out influx].
        rewrite (IH (out ++ [GET_ALL]) k answer Hk Hr).
        -- rewrite <- app_assoc. reflexivity.
        -- intros j earlier Hj Hl. apply (Hfirst (S j) earlier); [lia | exact Hl].
  - revert out.
    induction Hfed as [|line first lines snaps [Hv Hd] Hfed IH]; intros out Hno.
    + rewrite levelConfirm_nil. reflexivity.
    + rewrite levelConfirm_cons, Hv, Hd. cbv zeta.
      destruct (answerIs first param n) eqn:Ht.
      * apply answerIs_spec in Ht. exfalso. apply (Hno first); simpl; auto.
      * unfold polled. cbn [serial_out http_out influx]. rewrite IH.
        -- rewrite <- app_assoc. reflexivity.
        -- intros a Ha. apply Hno. simpl. auto.
Qed.

End Level.

Lemma levelConfirm_stops_at_first_equal_witness :
  levelConfirm "V09" 255 (World [sample_off; sample] [] [] [])
  = Blocked (World [] [GET_ALL; GET_ALL; GET_ALL] [] []).
Proof.
  assert (Hfed : fed [sample_off; sample] [snap_off; snap_on])
    by (repeat constructor; vm_compute; reflexivity).
  apply (proj2 (levelConfirm_stops_at_first_equal "V09" 255
                  [sample_off; sample] [snap_off; snap_on] [] [] [] Hfed)).
  intros answer [<-|[<-|[]]]; vm_compute; discriminate.
Defined.

(** ** The telemetry loop over many cycles *)

Section TelemetryRuns.

Variable (http : list body).

Lemma DB_routine_S (cycles : nat) (w : world) :
  DB_routine (S cycles) w
  = match DB_cycle w with
    | Ret _ w' => DB_routine cycles w'
    | Panic w' => Panic w'
    | Blocked w' => Blocked w'
    | OutOfBudget w' => OutOfBudget w'
    end.
Proof. reflexivity. Qed.

Lemma DB_cycle_decodable (line : string) (rest out : list string)
      (db : list (gmap string Z)) :
  (Main.outputIsValid line re = true -> is_Some (outputToMap line)) ->
  DB_cycle (World (line :: rest) out http db)
  = Ret tt (World rest (out ++ [GET_ALL]) http (db ++ stored [line])).
Proof.
  intros Hl. rewrite DB_cycle_cons. cbn [stored].
  destruct (Main.outputIsValid line re).
  - destruct (Hl eq_refl) as [point ->]. reflexivity.
  - rewrite app_nil_r. reflexivity.
Qed.

Lemma stored_cons (line : string) (lines : list string) :
  stored (line :: lines) = stored [line] ++ stored lines.
Proof.
  cbn [stored]. destruct (Main.outputIsValid line re); [|reflexivity].
  destruct (outputToMap line); reflexivity.
Qed.

(** X12. Over the lines of a device whose valid lines all decode, the
    telemetry loop sends one [<GET_ALL;>] per cycle and stores the decoded
    valid lines, in order, and nothing for the others; it never writes to a
    response.  After as many cycles as there are lines it has stored all of
    them; in the next cycle it waits for the device. *)
Theorem DB_routine_stores_valid_lines (lines out : list string)
      (db : list (gmap string Z)) :
  decodable lines ->
  DB_routine (length lines) (World lines out http db)
  = Ret tt (World [] (out ++ replicate (length lines) GET_ALL) http
                  (db ++ stored lines))
  /\ forall more,
      DB_routine (S (length lines + more)) (World lines out http db)
      = Blocked (World [] (out ++ replicate (S (length lines)) GET_ALL) http
                       (db ++ stored lines)).
Proof.
  intros H. revert out db.
  induction H as [|line lines Hl H IH]; intros out db.
  - split; [cbn; rewrite !app_nil_r; reflexivity|].
    intros more. cbn. rewrite !app_nil_r. reflexivity.
  - destruct (IH (out ++ [GET_ALL]) (db ++ stored [line])) as [IH1 IH2].
    rewrite (stored_cons line lines). split.
    + cbn [length]. rewrite DB_routine_S, (DB_cycle_decodable line lines out db Hl).
      rewrite IH1. cbn [replicate]. rewrite <- !app_assoc. reflexivity.
    + intros more. cbn [length Nat.add].
      rewrite DB_routine_S, (DB_cycle_decodable line lines out db Hl).
      rewrite IH2. cbn [replicate]. rewrite <- !app_assoc. reflexivity.
Qed.

(** X13. The first line that passes validation and does not decode ends the
    telemetry loop: what was decoded before it is stored, and no line after
    it is read or stored, whatever it is. *)
Theorem DB_routine_ends_at_undecodable_line (before rest out : list string)
      (bad : string) (db : list (gmap string Z)) (more : nat) :
  decodable before ->
  Main.outputIsValid bad re = true -> outputToMap bad = None ->
  DB_routine (S (length before + more)) (World (before ++ bad :: rest) out http db)
  = Panic (World rest (out ++ replicate (S (length before)) GET_ALL) http
                 (db ++ stored before)).
Proof.
  intros H Hv Hd. revert out db.
  induction H as [|line before Hl H IH]; intros out db.
  - cbn [app length Nat.add]. rewrite DB_routine_S, DB_cycle_cons, Hv, Hd.
    cbn. rewrite app_nil_r. reflexivity.
  - cbn [app length Nat.add].
    rewrite DB_routine_S, (DB_cycle_decodable line _ out db Hl).
    rewrite IH, (stored_cons line before).
    cbn [replicate]. rewrite <- !app_assoc. reflexivity.
Qed.

End TelemetryRuns.

Lemma DB_routine_stores_valid_lines_witness :
  DB_routine 3 (World [sample_off; twenty; sample] [] [] [])
  = Ret tt (World [] [GET_ALL; GET_ALL; GET_ALL] []
                  (stored [sample_off; twenty; sample])).
Proof.
  assert (Hd : decodable [sample_off; twenty; sample]).
  { repeat constructor.
    - intros _. exists snap_off. vm_compute. reflexivity.
    - intros H. vm_compute in H. discriminate H.
    - intros _. exists snap_on. vm_compute. reflexivity. }
  apply (proj1 (DB_routine_stores_valid_lines
                  [] [sample_off; twenty; sample] [] [] Hd)).
Defined.

Lemma DB_routine_ends_at_undecodable_line_witness :
  DB_routine 3 (World [sample_off; garbled; sample] [] [] [])
  = Panic (World [sample] [GET_ALL; GET_ALL] [] (stored [sample_off])).
Proof.
  apply (DB_routine_ends_at_undecodable_line [] [sample_off] [sample] [] garbled
                                             [] 1%nat).
  - repeat constructor. intros _. exists snap_off. vm_compute. reflexivity.
  - vm_compute. reflexivity.
  - vm_compute. reflexivity.
Defined.

(** ** Validation, once more *)

Section ValidationOrder.

(** X14. A value is accepted for known parameters only: whenever
    [URLValueValid] holds, [URLParamValid] holds too, so [setHandler] turns a
    request down exactly when [URLValueValid] does, and the answer
    [error: incorrect value!] is given for known parameters only. *)
Theorem URLValueValid_implies_URLParamValid (p v : string) (w : world) :
  (URLValueValid p v = true -> URLParamValid p = true)
  /\ (URLValueValid p v = false ->
      setHandler p v w = Ret tt (answered "error: incorrect param!" w)
      \/ (URLParamValid p = true
          /\ setHandler p v w = Ret tt (answered "error: incorrect value!" w))).
Proof.
  assert (G : URLValueValid p v = true -> URLParamValid p = true).
  { unfold URLValueValid, URLParamValid.
    destruct (stringInSlice p VxxParams), (stringInSlice p TxxParams),
      (stringInSlice p pumpParams); try reflexivity;
      destruct (0 <? len v)%nat; try discriminate;
      destruct (ParseInt v 10 64) as [n [e|]]; discriminate. }
  split; [exact G|].
  intros Hv. destruct (URLParamValid p) eqn:Hp.
  - right. split; [reflexivity|]. apply setHandler_incorrect_value; assumption.
  - left. apply setHandler_incorrect_param. exact Hp.
Qed.

Lemma URLValueValid_implies_URLParamValid_witness :
  URLParamValid "T08" = true.
Proof.
  apply (proj1 (URLValueValid_implies_URLParamValid "T08" "999"
                  (World [] [] [] []))). reflexivity.
Defined.

Lemma parseDigits_zeros (k : nat) (s : string) :
  parseDigits (zeros k +:+ s) 10 64 0 = parseDigits s 10 64 0.
Proof.
  induction k as [|k IH]; [reflexivity|].
  cbn [zeros String.append]. rewrite <- IH. reflexivity.
Qed.

Lemma decimalReadsBack_all (v : Z) : 0 <= v <= 255 -> decimalReadsBack v = true.
Proof. apply byte_cases. vm_compute. reflexivity. Qed.

Lemma ParseInt_padded (k : nat) (v : Z) :
  0 <= v <= 255 -> ParseInt (zeros k +:+ decimal v) 10 64 = (v, None).
Proof.
  intros Hv. destruct k as [|k].
  - pose proof (levelTexts_all v Hv) as Ht. unfold levelTexts in Ht.
    rewrite !andb_true_iff in Ht. destruct Ht as [[[[Hd _] _] _] _].
    cbn [zeros String.append].
    destruct (ParseInt (decimal v) 10 64) as [n [e|]]; [discriminate|].
    apply Z.eqb_eq in Hd. now subst n.
  - pose proof (decimalReadsBack_all v Hv) as Hr. unfold decimalReadsBack in Hr.
    assert (Hu : ParseUint (String "0" (zeros k +:+ decimal v)) 10 64 = (v, None)).
    { unfold ParseUint.
      change (String "0" (zeros k +:+ decimal v)) with (zeros (S k) +:+ decimal v).
      rewrite parseDigits_zeros.
      unfold ParseUint in Hr. destruct (decimal v) as [|c d] eqn:Ed.
      - discriminate Hr.
      - destruct (parseDigits (String c d) 10 64 0) as [n [e|]]; [discriminate|].
        apply Z.eqb_eq in Hr. now subst n. }
    cbn [zeros String.append]. unfold ParseInt.
    change (Ascii.eqb "0" "-") with false. change (Ascii.eqb "0" "+") with false.
    cbn [orb negb andb]. rewrite Hu.
    assert (E : (2 ^ (64 - 1) <=? v) = false) by (apply Z.leb_gt; lia).
    rewrite E. reflexivity.
Qed.

(** X15. A level written with leading zeros passes validation like the
    plain numeral, the command carries the text as the client wrote it, not
    the number, and the confirmation loop waits for the number. *)
Theorem padded_level_is_sent_as_typed (k : nat) (v : Z) (param : string) :
  0 <= v <= 255 -> In param VxxParams ->
  URLValueValid param (zeros k +:+ decimal v) = true
  /\ forall w,
      setHandler param (zeros k +:+ decimal v) w
      = levelConfirm param v
          (World (serial_in w)
                 (serial_out w
                  ++ ["<SET_" +:+ param +:+ "="
                      +:+ (zeros k +:+ decimal v) +:+ ";>"])
                 (http_out w) (influx w)).
Proof.
  intros Hv Hin.
  pose proof (ParseInt_padded k v Hv) as Hp.
  assert (Hval : URLValueValid param (zeros k +:+ decimal v) = true).
  { rewrite (URLValueValid_parsed param _ v Hp).
    apply stringInSlice_In in Hin. rewrite Hin.
    assert (E1 : (0 <=? v) = true) by (apply Z.leb_le; lia).
    assert (E2 : (v <? 256) = true) by (apply Z.ltb_lt; lia).
    rewrite E1, E2. reflexivity. }
  split; [exact Hval|]. intros w. unfold setHandler.
  assert (Hpar : URLParamValid param = true) by (apply URLParamValid_In; auto).
  rewrite Hpar, Hval. cbn [negb]. unfold bind at 1. cbn [arduino_Write].
  apply stringInSlice_In in Hin as Hin'. rewrite Hin'.
  unfold bind. rewrite Hp. cbn [check ret].
  destruct (Vxx_fields param Hin) as (_ & HP & _).
  unfold command. rewrite HP. reflexivity.
Qed.

Lemma padded_level_is_sent_as_typed_witness :
  URLValueValid "V03" "007" = true
  /\ forall w,
      setHandler "V03" "007" w
      = levelConfirm "V03" 7
          (World (serial_in w) (serial_out w ++ ["<SET_V03=007;>"])
                 (http_out w) (influx w)).
Proof.
  apply (padded_level_is_sent_as_typed 2 7 "V03"); [lia | simpl; auto 10].
Defined.

End ValidationOrder.

(** ** Finding the device *)

Section Finding.

Import Discovery.

Lemma ReplaceAllSpace_clean (s : string) :
  ContainsSpace (ReplaceAllSpace s) = false.
Proof.
  induction s as [|c s IH]; [reflexivity|]. cbn [ReplaceAllSpace].
  destruct (Ascii.eqb c " ") eqn:E; [exact IH|].
  cbn [ContainsSpace]. rewrite E. exact IH.
Qed.

Lemma ReplaceAllSpace_id (s : string) :
  ContainsSpace s = false -> ReplaceAllSpace s = s.
Proof.
  induction s as [|c s IH]; [reflexivity|]. cbn [ContainsSpace ReplaceAllSpace].
  destruct (Ascii.eqb c " "); [discriminate|]. intros H. now rewrite IH.
Qed.

Lemma getSerialNumbers_clean_eq (lines : list string) :
  getSerialNumbers (Some lines) = Some (map ReplaceAllSpace lines).
Proof.
  unfold getSerialNumbers. f_equal. apply map_ext. intros sn.
  destruct (ContainsSpace sn) eqn:E; [reflexivity|].
  symmetry. apply ReplaceAllSpace_id. exact E.
Qed.

(** X16. [getSerialNumbers] returns the lines of the file in order, each
    with its blanks removed: no serial number it returns holds a blank, a
    line without blanks is returned as it is, and the test for a blank
    before the replacement changes nothing. *)
Theorem getSerialNumbers_strips_blanks (lines : list string) :
  getSerialNumbers (Some lines) = Some (map ReplaceAllSpace lines)
  /\ Forall (fun sn => ContainsSpace sn = false) (map ReplaceAllSpace lines)
  /\ forall i line, lines !! i = Some line -> ContainsSpace line = false ->
                    map ReplaceAllSpace lines !! i = Some line.
Proof.
  split; [|split].
  - apply getSerialNumbers_clean_eq.
  - apply List.Forall_forall. intros sn Hin. apply in_map_iff in Hin as (l & <- & _).
    apply ReplaceAllSpace_clean.
  - intros i line Hl Hc. rewrite list_lookup_fmap, Hl. cbn.
    rewrite (ReplaceAllSpace_id line Hc). reflexivity.
Qed.

Lemma getSerialNumbers_strips_blanks_witness :
  map ReplaceAllSpace ["AB 12"; "CD34"] !! 1%nat = Some "CD34".
Proof.
  apply (proj2 (proj2 (getSerialNumbers_strips_blanks ["AB 12"; "CD34"]))
               1%nat "CD34"); reflexivity.
Defined.

Lemma rangeSerials_In (sns : list string) (port : PortDetails) :
  rangeSerials sns port = true <-> In (SerialNumber port) sns.
Proof.
  induction sns as [|sn sns IH]; cbn [rangeSerials In].
  - split; [discriminate | tauto].
  - destruct (String.eqb_spec sn (SerialNumber port)) as [->|Hne].
    + split; auto.
    + rewrite IH. split; [auto | intros [E|H]; [congruence | exact H]].
Qed.

Lemma scanPorts_skips (lines : list string) (ports : list PortDetails) :
  Forall (fun q => ~ eligible (map ReplaceAllSpace lines) q) ports ->
  scanPorts ports (Some lines) = NotFound.
Proof.
  intros H. induction H as [|q ports Hq H IH]; [reflexivity|].
  cbn [scanPorts]. destruct (IsUSB q) eqn:Hu; [|exact IH].
  rewrite (getSerialNumbers_clean_eq lines).
  destruct (rangeSerials _ q) eqn:Hr; [|exact IH].
  exfalso. apply Hq. split; [exact Hu|]. apply rangeSerials_In. exact Hr.
Qed.

End Finding.

Section FindingPorts.

Import Discovery.

Lemma scanPorts_first (lines : list string) (before after : list PortDetails)
      (port : PortDetails) :
  Forall (fun q => ~ eligible (map ReplaceAllSpace lines) q) before ->
  eligible (map ReplaceAllSpace lines) port ->
  scanPorts (before ++ port :: after) (Some lines) = Found (Name port).
Proof.
  intros H [Hu Hs]. induction H as [|q before Hq H IH]; cbn [app scanPorts].
  - rewrite Hu, (getSerialNumbers_clean_eq lines).
    apply rangeSerials_In in Hs. rewrite Hs. reflexivity.
  - destruct (IsUSB q) eqn:Hqu; [|exact IH].
    rewrite (getSerialNumbers_clean_eq lines).
    destruct (rangeSerials _ q) eqn:Hr; [|exact IH].
    exfalso. apply Hq. split; [exact Hqu|]. apply rangeSerials_In. exact Hr.
Qed.

(** X17. [findArduinoPort] returns the name of the first USB port, in the
    order of the enumeration, whose serial number is one of the cleaned
    lines of the file; enumerations without such a port only make it look
    again.  The order of the file has no say. *)
Theorem findArduinoPort_picks_first_eligible (lines : list string)
      (earlier later : list (list PortDetails))
      (before after : list PortDetails) (port : PortDetails) :
  Forall (Forall (fun q => ~ eligible (map ReplaceAllSpace lines) q)) earlier ->
  Forall (fun q => ~ eligible (map ReplaceAllSpace lines) q) before ->
  eligible (map ReplaceAllSpace lines) port ->
  findArduinoPort (earlier ++ (before ++ port :: after) :: later) (Some lines)
  = Found (Name port).
Proof.
  intros He Hb Hp. induction He as [|ports earlier Hq He IH];
    cbn [app findArduinoPort].
  - rewrite (scanPorts_first lines before after port Hb Hp). reflexivity.
  - rewrite (scanPorts_skips lines ports Hq). exact IH.
Qed.

Lemma findArduinoPort_picks_first_eligible_witness :
  findArduinoPort
    [[Port "COM1" false "A1"];
     [Port "COM1" false "A1"; Port "ttyUSB0" true "B 2"; Port "ttyUSB1" true "A1";
      Port "ttyUSB2" true "B2"]]
    (Some ["B 2"; "A1"])
  = Found "ttyUSB1".
Proof.
  apply (findArduinoPort_picks_first_eligible ["B 2"; "A1"]
           [[Port "COM1" false "A1"]] []
           [Port "COM1" false "A1"; Port "ttyUSB0" true "B 2"]
           [Port "ttyUSB2" true "B2"] (Port "ttyUSB1" true "A1")).
  - repeat constructor. intros [H _]. discriminate H.
  - repeat constructor.
    + intros [H _]. discriminate H.
    + intros [_ H]. simpl in H. intuition discriminate.
  - split; [reflexivity | simpl; auto].
Defined.





End FindingPorts.

(** ** The command of an accepted request *)

Section Commands.

Lemma allDigits_lacks (c : ascii) (s : string) :
  isDigit c = false -> allDigits s = true -> lacks c s = true.
Proof.
  intros Hc. induction s as [|d s IH]; [reflexivity|].
  cbn [allDigits lacks]. intros H. apply andb_true_iff in H as [Hd Hs].
  rewrite (IH Hs), andb_true_r. apply negb_true_iff.
  destruct (Ascii.eqb_spec d c) as [->|]; [congruence | reflexivity].
Qed.

Lemma numeral_lacks (c : ascii) (v : string) :
  isDigit c = false -> Ascii.eqb c "+" = false -> Ascii.eqb c "-" = false ->
  numeral v = true -> lacks c v = true.
Proof.
  intros Hc Hplus Hminus. destruct v as [|d v]; [discriminate|].
  unfold numeral. destruct (Ascii.eqb d "+" || Ascii.eqb d "-") eqn:Hsign.
  - intros H. apply andb_true_iff in H as [_ H]. cbn [lacks].
    rewrite (allDigits_lacks c v Hc H), andb_true_r. apply negb_true_iff.
    destruct (Ascii.eqb_spec d c) as [->|]; [|reflexivity].
    rewrite Hplus, Hminus in Hsign. discriminate.
  - apply allDigits_lacks. exact Hc.
Qed.

Lemma accepted_value (p v : string) :
  URLValueValid p v = true ->
  (In p pumpParams /\ v = "")
  \/ ((In p VxxParams \/ In p TxxParams) /\ numeral v = true).
Proof.
  intros H. destruct v as [|c v'].
  - left. rewrite URLValueValid_empty in H. apply stringInSlice_In in H. auto.
  - right. destruct (ParseInt (String c v') 10 64) as [n [e|]] eqn:Hp.
    + rewrite (URLValueValid_unparsed p _ e) in H;
        [discriminate | now rewrite Hp | discriminate].
    + split.
      * rewrite (URLValueValid_parsed p _ n Hp) in H.
        apply orb_true_iff in H as [H|H];
          apply andb_true_iff in H as [H _]; apply andb_true_iff in H as [H _];
          apply stringInSlice_In in H; auto.
      * apply ParseInt_numeral. rewrite Hp. reflexivity.
Qed.

(** X19. The command of an accepted request has the form of its class: a
    toggle is sent as [<NAME;>] and carries no value, a level or a threshold
    as [<SET_NAME=VALUE;>]; the test on the prefix [PUMP] that chooses
    between the two agrees with the registries. *)
Theorem command_form_by_class (p v : string) :
  URLValueValid p v = true ->
  (In p pumpParams /\ v = "" /\ command p v = "<" +:+ p +:+ ";>")
  \/ ((In p VxxParams \/ In p TxxParams)
      /\ command p v = "<SET_" +:+ p +:+ "=" +:+ v +:+ ";>").
Proof.
  intros H. destruct (accepted_value p v H) as [[Hin ->]|[Hin _]].
  - left. repeat split; auto. simpl in Hin.
    repeat (destruct Hin as [<-|Hin]; [reflexivity|]). contradiction.
  - right. split; [exact Hin|]. simpl in Hin.
    destruct Hin as [Hin|Hin];
      repeat (destruct Hin as [<-|Hin]; [reflexivity|]); contradiction.
Qed.

Lemma command_form_by_class_witness :
  (In "PUMP_OFF" pumpParams /\ "" = ""
   /\ command "PUMP_OFF" "" = "<" +:+ "PUMP_OFF" +:+ ";>")
  \/ ((In "PUMP_OFF" VxxParams \/ In "PUMP_OFF" TxxParams)
      /\ command "PUMP_OFF" "" = "<SET_" +:+ "PUMP_OFF" +:+ "=" +:+ "" +:+ ";>").
Proof.
  apply (command_form_by_class "PUMP_OFF" ""). reflexivity.
Defined.

(** X20. A value that passes validation is empty or a sign and decimal
    digits: it holds none of the bytes that frame the protocol ([<], [>],
    [=], [;]) and no blank, so the text of a client cannot close the command
    early or add a second one. *)
Theorem accepted_value_has_no_delimiter (p v : string) :
  URLValueValid p v = true ->
  lacks "<" v = true /\ lacks ">" v = true /\ lacks "=" v = true
  /\ lacks ";" v = true /\ lacks " " v = true.
Proof.
  intros H. destruct (accepted_value p v H) as [[_ ->]|[_ Hn]].
  - repeat split; reflexivity.
  - repeat split; apply numeral_lacks; try reflexivity; exact Hn.
Qed.

Lemma accepted_value_has_no_delimiter_witness :
  lacks "<" "+12" = true /\ lacks ">" "+12" = true /\ lacks "=" "+12" = true
  /\ lacks ";" "+12" = true /\ lacks " " "+12" = true.
Proof.
  apply (accepted_value_has_no_delimiter "T02" "+12"). reflexivity.
Defined.

End Commands.

(** ** The stricter validator *)

Section Stricter.

(** X21. The validator of the unnamed file accepts a line exactly when the
    validator of [main.go] accepts it and the line is shorter than 215
    bytes; what it accepts has 28 to 35 matches of the pattern. *)
Theorem Part000_outputIsValid_refines (s : string) :
  (Part000.outputIsValid s re = true
   <-> Main.outputIsValid s re = true /\ (len s < 215)%nat)
  /\ (Part000.outputIsValid s re = true ->
      (28 <= length (re s) <= 35)%nat).
Proof.
  assert (G : Part000.outputIsValid s re = true
              <-> Main.outputIsValid s re = true /\ (len s < 215)%nat).
  { unfold Part000.outputIsValid, Main.outputIsValid.
    destruct (168 <? len s)%nat; cbn [andb].
    - destruct (len s <? 215)%nat eqn:E.
      + apply Nat.ltb_lt in E. tauto.
      + apply Nat.ltb_ge in E. split; [discriminate | lia].
    - split; [discriminate | intros [H _]; discriminate H]. }
  split; [exact G|]. intros H. apply G in H as [Hm Hl].
  unfold Main.outputIsValid in Hm.
  destruct (168 <? len s)%nat; [|discriminate].
  destruct (_ && _) eqn:Hc in Hm; [|discriminate].
  apply andb_true_iff in Hc as [_ Hn]. apply Nat.leb_le in Hn.
  split; [exact Hn|].
  pose proof (allMatches_fit (S (len s)) s) as Hfit.
  unfold re, FindAll in *. lia.
Qed.

Lemma Part000_outputIsValid_refines_witness :
  (28 <= length (re sample) <= 35)%nat.
Proof.
  apply (proj2 (Part000_outputIsValid_refines sample)). vm_compute. reflexivity.
Defined.

End Stricter.

(** ** Requests on a port whose writes can fail *)

Section PortFailures.

Variable fails : list string -> bool.

(** After validation the requested value of a level parses. *)
Lemma validated_value_parses (param value : string) :
  In param VxxParams -> URLValueValid param value = true ->
  exists n, ParseInt value 10 64 = (n, None).
Proof.
  intros Hin Hv. destruct (ParseInt value 10 64) as [n [e|]] eqn:Hp; [|eauto].
  destruct value as [|c value'].
  - rewrite URLValueValid_empty, (Vxx_not_pump param Hin) in Hv. discriminate.
  - rewrite (URLValueValid_unparsed param _ e) in Hv;
      [discriminate | now rewrite Hp | discriminate].
Qed.

(** One turn of [singleOutputRead]. *)
Lemma Faulty_singleOutputRead_step (budget : nat) (w : world) :
  Faulty.singleOutputRead_loop fails (S budget) w
  = if fails (serial_out w) then Panic w
    else match serial_in w with
         | [] => Blocked (polled [] w)
         | output :: rest =>
             if Main.outputIsValid output re then Ret output (polled rest w)
             else Faulty.singleOutputRead_loop fails budget (polled rest w)
         end.
Proof.
  cbn [Faulty.singleOutputRead_loop]. unfold bind at 1.
  unfold Faulty.arduino_Write. destruct (fails (serial_out w)); [reflexivity|].
  cbn [Main.arduino_Write]. unfold bind, scan. cbn [serial_in].
  destruct (serial_in w) as [|output rest]; [reflexivity|].
  destruct (Main.outputIsValid output re); reflexivity.
Qed.

Lemma advanced_none (w : world) : advanced 0 [] w w.
Proof.
  unfold advanced. cbn. rewrite app_nil_r. auto.
Qed.

Lemma advanced_poll (output : string) (rest : list string) (w : world) :
  serial_in w = output :: rest -> advanced 1 [output] w (polled rest w).
Proof.
  intros H. unfold advanced, polled. cbn. rewrite H. auto.
Qed.

Lemma advanced_then (p1 p2 : nat) (pre1 pre2 : list string) (w w1 w2 : world) :
  advanced p1 pre1 w w1 -> advanced p2 pre2 w1 w2 ->
  advanced (p1 + p2) (pre1 ++ pre2) w w2.
Proof.
  intros (Hi1 & Hl1 & Ho1 & Hd1) (Hi2 & Hl2 & Ho2 & Hd2). unfold advanced.
  rewrite Hi1, Hi2, Ho2, Ho1, Hd2, Hd1, length_app, replicate_add, !app_assoc.
  repeat split; auto. lia.
Qed.

Lemma Exists_bad_later (pre1 pre2 : list string) :
  Exists bad pre2 -> Exists bad (pre1 ++ pre2).
Proof. intros H. apply Exists_app. right. exact H. Qed.

Lemma Faulty_singleOutputRead_inv (budget : nat) (w : world) :
  (length (serial_in w) < budget)%nat ->
  read_inv fails w (Faulty.singleOutputRead_loop fails budget w)
           (fun output pre => In output pre /\ Main.outputIsValid output re = true).
Proof.
  revert w. induction budget as [|budget IH]; intros w Hb; [lia|].
  rewrite Faulty_singleOutputRead_step.
  destruct (fails (serial_out w)) eqn:Hf.
  - exists 0%nat, []. split; [apply advanced_none|]. split; [reflexivity|].
    left. exact Hf.
  - destruct (serial_in w) as [|output rest] eqn:Hin.
    + exists 1%nat, []. split; [|split; [reflexivity | cbn; lia]].
      unfold advanced, polled. cbn. rewrite Hin. auto.
    + pose proof (advanced_poll output rest w Hin) as Ha.
      destruct (Main.outputIsValid output re) eqn:Hv.
      * exists 1%nat, [output]. split; [exact Ha|]. split; [reflexivity|].
        split; [discriminate|]. split; [left; reflexivity | exact Hv].
      * assert (Hb' : (length (serial_in (polled rest w)) < budget)%nat)
          by (cbn in *; lia).
        destruct (IH (polled rest w) Hb') as (p2 & pre2 & Ha2 & Hh2 & Hm).
        exists (1 + p2)%nat, ([output] ++ pre2).
        split; [apply (advanced_then _ _ _ _ _ _ _ Ha Ha2)|].
        split; [rewrite Hh2; reflexivity|].
        destruct (Faulty.singleOutputRead_loop fails budget (polled rest w))
          as [a w'|w'|w'|w']; cbn [after] in *.
        -- destruct Hm as (_ & Hi & Hva). split; [discriminate|].
           split; [right; exact Hi | exact Hva].
        -- destruct Hm as [Hm|Hm]; [left; exact Hm|].
           right. apply Exists_bad_later. exact Hm.
        -- lia.
        -- exact Hm.
Qed.

Lemma Faulty_readAnswer_inv (w : world) :
  read_inv fails w (Faulty.readAnswer fails w) (fun _ _ => True).
Proof.
  unfold Faulty.readAnswer, bind, Faulty.singleOutputRead.
  assert (Hb : (length (serial_in w) < budget_of w)%nat) by (unfold budget_of; lia).
  destruct (Faulty_singleOutputRead_inv (budget_of w) w Hb)
    as (polls & pre & Ha & Hh & Hm).
  exists polls, pre.
  destruct (Faulty.singleOutputRead_loop fails (budget_of w) w)
    as [output w'|w'|w'|w']; cbn [after] in *.
  - destruct Hm as (Hne & Hi & Hv).
    destruct (outputToMap output) as [answer|] eqn:Hd; cbn [check ret panic after].
    + auto.
    + split; [exact Ha|]. split; [exact Hh|]. right.
      apply List.Exists_exists. exists output. split; [exact Hi|]. split; assumption.
  - auto.
  - auto.
  - auto.
Qed.

Lemma advanced_shorter (polls : nat) (pre : list string) (w w' : world) :
  advanced polls pre w w' -> pre <> [] ->
  (length (serial_in w') < length (serial_in w))%nat.
Proof.
  intros (Hi & _) Hne. rewrite Hi, length_app.
  destruct pre; [contradiction | cbn; lia].
Qed.

Lemma advanced_polled_once (polls : nat) (pre : list string) (w w' : world) :
  advanced polls pre w w' -> pre <> [] -> (1 <= polls)%nat.
Proof.
  intros (_ & Hl & _) Hne. destruct pre; [contradiction | cbn in Hl; lia].
Qed.

(** What a loop does after a read that returned. *)
Lemma handled_inv_after_read (p1 : nat) (pre1 : list string) (w w1 : world)
      (o : outcome unit) :
  advanced p1 pre1 w w1 -> http_out w1 = http_out w -> pre1 <> [] ->
  handled_inv fails w1 o -> handled_inv fails w o.
Proof.
  intros Ha Hh Hne (p2 & pre2 & Ha2 & Hans & Hm).
  exists (p1 + p2)%nat, (pre1 ++ pre2).
  split; [apply (advanced_then _ _ _ _ _ _ _ Ha Ha2)|].
  split.
  - unfold answers_iff_returned in *. rewrite <- Hh. exact Hans.
  - pose proof (advanced_polled_once _ _ _ _ Ha Hne).
    destruct o as [a w'|w'|w'|w']; try lia; try exact Hm.
    destruct Hm as [Hm|Hm]; [left; exact Hm|].
    right. apply Exists_bad_later. exact Hm.
Qed.

Lemma handled_inv_answer (polls : nat) (pre : list string) (w w1 : world)
      (answer : gmap string Z) :
  advanced polls pre w w1 -> http_out w1 = http_out w -> pre <> [] ->
  handled_inv fails w (w_Write (Json answer) w1).
Proof.
  intros Ha Hh Hne. exists polls, pre. split; [exact Ha|]. split.
  - left. split; [exact I|]. exists answer. cbn. rewrite Hh. reflexivity.
  - cbn. apply (advanced_polled_once _ _ _ _ Ha Hne).
Qed.

(** A read that did not return ends the piece of the handler around it. *)
Lemma handled_inv_stopped {A} (w : world) (o : outcome A) (o' : outcome unit)
      (ok : A -> list string -> Prop) :
  read_inv fails w o ok ->
  match o with
  | Ret _ _ => True
  | Panic w' => o' = Panic w'
  | Blocked w' => o' = Blocked w'
  | OutOfBudget w' => o' = OutOfBudget w'
  end ->
  match o with
  | Ret _ _ => True
  | _ => handled_inv fails w o'
  end.
Proof.
  intros (polls & pre & Ha & Hh & Hm) Ho.
  destruct o as [a w'|w'|w'|w']; [exact I| | |]; subst o'; cbn [after] in *;
    exists polls, pre; (split; [exact Ha|]); (split; [right; split; [exact id | exact Hh]|]);
    exact Hm.
Qed.

Lemma Faulty_pumpLoop_inv (param : string) (budget : nat) (w : world) :
  (length (serial_in w) < budget)%nat ->
  handled_inv fails w (Faulty.pumpLoop fails budget param w).
Proof.
  revert w. induction budget as [|budget IH]; intros w Hb; [lia|].
  cbn [Faulty.pumpLoop]. unfold bind.
  pose proof (Faulty_readAnswer_inv w) as Hr.
  pose proof (fun o' => handled_inv_stopped w (Faulty.readAnswer fails w) o' _ Hr)
    as Hs.
  destruct (Faulty.readAnswer fails w) as [answer w1|w1|w1|w1];
    [|apply Hs; reflexivity|apply Hs; reflexivity|apply Hs; reflexivity].
  destruct Hr as (p1 & pre1 & Ha & Hh & Hne & _). cbn [after] in *.
  destruct (String.eqb param "PUMP_ON" && answerIs answer "PUMP" 1);
    [apply (handled_inv_answer p1 pre1); assumption|].
  destruct (String.eqb param "PUMP_OFF" && answerIs answer "PUMP" 0);
    [apply (handled_inv_answer p1 pre1); assumption|].
  apply (handled_inv_after_read p1 pre1 w w1); try assumption.
  apply IH. pose proof (advanced_shorter _ _ _ _ Ha Hne). lia.
Qed.

Lemma Faulty_levelLoop_inv (param : string) (n : Z) (budget : nat) (w : world) :
  (length (serial_in w) < budget)%nat ->
  handled_inv fails w (Faulty.levelLoop fails budget param n w).
Proof.
  revert w. induction budget as [|budget IH]; intros w Hb; [lia|].
  cbn [Faulty.levelLoop]. unfold bind.
  pose proof (Faulty_readAnswer_inv w) as Hr.
  pose proof (fun o' => handled_inv_stopped w (Faulty.readAnswer fails w) o' _ Hr)
    as Hs.
  destruct (Faulty.readAnswer fails w) as [answer w1|w1|w1|w1];
    [|apply Hs; reflexivity|apply Hs; reflexivity|apply Hs; reflexivity].
  destruct Hr as (p1 & pre1 & Ha & Hh & Hne & _). cbn [after] in *.
  destruct (answerIs answer param n);
    [apply (handled_inv_answer p1 pre1); assumption|].
  apply (handled_inv_after_read p1 pre1 w w1); try assumption.
  apply IH. pose proof (advanced_shorter _ _ _ _ Ha Hne). lia.
Qed.

Lemma Faulty_getHandler_inv (w : world) :
  handled_inv fails w (Faulty.getHandler fails w).
Proof.
  unfold Faulty.getHandler, bind.
  pose proof (Faulty_readAnswer_inv w) as Hr.
  pose proof (fun o' => handled_inv_stopped w (Faulty.readAnswer fails w) o' _ Hr)
    as Hs.
  destruct (Faulty.readAnswer fails w) as [answer w1|w1|w1|w1];
    [|apply Hs; reflexivity|apply Hs; reflexivity|apply Hs; reflexivity].
  destruct Hr as (p1 & pre1 & Ha & Hh & Hne & _). cbn [after] in *.
  apply (handled_inv_answer p1 pre1); assumption.
Qed.

(** What [setHandler] does once its command has gone out. *)
Lemma Faulty_setHandler_polls (param value : string) (w : world) :
  URLParamValid param = true -> URLValueValid param value = true ->
  fails (serial_out w) = false ->
  exists o,
    Faulty.setHandler fails param value w = o
    /\ handled_inv fails
         (World (serial_in w) (serial_out w ++ [command param value])
                (http_out w) (influx w)) o.
Proof.
  intros Hp Hv Hf. eexists. split; [reflexivity|].
  unfold Faulty.setHandler. rewrite Hp, Hv. cbn [negb].
  unfold bind at 1. unfold Faulty.arduino_Write. rewrite Hf.
  cbn [Main.arduino_Write].
  set (w1 := World (serial_in w) (serial_out w ++ [command param value])
                   (http_out w) (influx w)).
  assert (Hb : (length (serial_in w1) < budget_of w1)%nat) by (unfold budget_of; lia).
  destruct (stringInSlice param VxxParams) eqn:HV.
  - apply stringInSlice_In in HV.
    destruct (validated_value_parses param value HV Hv) as [n Hn].
    unfold bind. rewrite Hn. cbn [check ret].
    apply Faulty_levelLoop_inv. exact Hb.
  - destruct (stringInSlice param pumpParams) eqn:HP;
      [apply Faulty_pumpLoop_inv; exact Hb|].
    destruct (stringInSlice param TxxParams) eqn:HT;
      [apply Faulty_getHandler_inv|].
    unfold URLParamValid in Hp. rewrite HV, HT, HP in Hp. discriminate.
Qed.

End PortFailures.

Section PortDiscipline.

Variable fails : list string -> bool.

Lemma Faulty_setHandler_write_failed (param value : string) (w : world) :
  URLParamValid param = true -> URLValueValid param value = true ->
  fails (serial_out w) = true ->
  Faulty.setHandler fails param value w = Panic w.
Proof.
  intros Hp Hv Hf. unfold Faulty.setHandler. rewrite Hp, Hv. cbn [negb].
  unfold bind, Faulty.arduino_Write. rewrite Hf. reflexivity.
Qed.

Lemma handled_inv_panic (w : world) (o : outcome unit) :
  handled_inv fails w o -> panicked o ->
  fails (serial_out (after o)) = true \/ Exists bad (serial_in w).
Proof.
  intros (polls & pre & (Hi & _) & _ & Hm) Hp.
  destruct o as [a w'|w'|w'|w']; try contradiction. cbn [after] in *.
  destruct Hm as [Hm|Hm]; [left; exact Hm|].
  right. rewrite Hi. apply Exists_app. left. exact Hm.
Qed.

Lemma decodable_no_bad (lines : list string) :
  decodable lines -> ~ Exists bad lines.
Proof.
  intros Hd Hb. apply List.Exists_exists in Hb as (line & Hin & Hv & Hn).
  unfold decodable in Hd. rewrite List.Forall_forall in Hd.
  destruct (Hd line Hin Hv) as [answer Ha]. congruence.
Qed.

(** X10. On a port whose writes can fail, a set request that passes
    validation either fails to write its command, and then panics with
    nothing written, or writes the command once and first and after it
    only [<GET_ALL;>]; if no [<GET_ALL;>] went out, the first poll failed to
    write and the request panicked.  However the run ends, it never writes
    to the database, and it writes to the response exactly when it
    returns, one snapshot. *)
Theorem setHandler_port_discipline (param value : string) (w : world) :
  URLParamValid param = true -> URLValueValid param value = true ->
  port_disciplined fails w (Faulty.setHandler fails param value w)
                   (command param value).
Proof.
  intros Hp Hv. destruct (fails (serial_out w)) eqn:Hf.
  - rewrite (Faulty_setHandler_write_failed param value w Hp Hv Hf).
    split; [exact I|]. split; [reflexivity|]. split.
    + right. split; [exact id | reflexivity].
    + left. split; [exact Hf | reflexivity].
  - destruct (Faulty_setHandler_polls fails param value w Hp Hv Hf)
      as (o & -> & polls & pre & (Hi & Hl & Ho & Hd) & Hans & Hm).
    cbn [serial_in serial_out http_out influx] in *.
    split; [|split; [exact Hd|split; [exact Hans|]]].
    + destruct o; try exact I. exact Hm.
    + right. split; [exact Hf|]. exists polls. split.
      * rewrite Ho, <- app_assoc. reflexivity.
      * intros ->. destruct o as [a w'|w'|w'|w']; cbn [after] in *; try lia;
          try contradiction.
        split; [exact I|]. destruct Hm as [Hm|Hm].
        -- rewrite Ho in Hm. cbn [replicate] in Hm. rewrite app_nil_r in Hm.
           exact Hm.
        -- destruct pre; [inversion Hm | cbn in Hl; lia].
Qed.

(** X11. On a port whose writes can fail, a handler panics only at a write
    that failed or on a line that passed validation and does not decode: if
    [setHandler] or [getHandler] panics, the write it attempted last failed,
    or the device had sent such a line.  With a port that never fails and a
    device whose valid lines all decode, no request panics, whatever the
    parameter and the value. *)
Theorem handler_panics_at_failed_write_or_bad_line (param value : string)
      (w : world) :
  (panicked (Faulty.setHandler fails param value w) ->
   fails (serial_out (after (Faulty.setHandler fails param value w))) = true
   \/ Exists bad (serial_in w))
  /\ (panicked (Faulty.getHandler fails w) ->
      fails (serial_out (after (Faulty.getHandler fails w))) = true
      \/ Exists bad (serial_in w))
  /\ ((forall sent, fails sent = false) -> decodable (serial_in w) ->
      ~ panicked (Faulty.setHandler fails param value w)
      /\ ~ panicked (Faulty.getHandler fails w)).
Proof.
  assert (Hset : panicked (Faulty.setHandler fails param value w) ->
                 fails (serial_out (after (Faulty.setHandler fails param value w)))
                 = true
                 \/ Exists bad (serial_in w)).
  { destruct (URLParamValid param) eqn:Hp;
      [|unfold Faulty.setHandler; rewrite Hp; intros []].
    destruct (URLValueValid param value) eqn:Hv;
      [|unfold Faulty.setHandler; rewrite Hp, Hv; intros []].
    destruct (fails (serial_out w)) eqn:Hf.
    - rewrite (Faulty_setHandler_write_failed param value w Hp Hv Hf).
      intros _. left. exact Hf.
    - destruct (Faulty_setHandler_polls fails param value w Hp Hv Hf)
        as (o & -> & Hinv).
      intros Hpan. apply (handled_inv_panic _ o Hinv Hpan). }
  assert (Hget : panicked (Faulty.getHandler fails w) ->
                 fails (serial_out (after (Faulty.getHandler fails w))) = true
                 \/ Exists bad (serial_in w)).
  { apply handled_inv_panic. apply Faulty_getHandler_inv. }
  split; [exact Hset|]. split; [exact Hget|].
  intros Hnever Hdec. split; intros Hpan.
  - destruct (Hset Hpan) as [H|H]; [rewrite Hnever in H; discriminate|].
    apply (decodable_no_bad _ Hdec H).
  - destruct (Hget Hpan) as [H|H]; [rewrite Hnever in H; discriminate|].
    apply (decodable_no_bad _ Hdec H).
Qed.

End PortDiscipline.

Lemma setHandler_port_discipline_witness :
  port_disciplined second_write_fails (World [sample] [] [] [])
    (Faulty.setHandler second_write_fails "PUMP_ON" "" (World [sample] [] [] []))
    "<PUMP_ON;>".
Proof.
  apply (setHandler_port_discipline second_write_fails "PUMP_ON" ""
           (World [sample] [] [] [])); reflexivity.
Defined.

Lemma handler_panics_at_failed_write_or_bad_line_witness :
  second_write_fails
    (serial_out (after (Faulty.setHandler second_write_fails "PUMP_ON" ""
                          (World [sample] [] [] [])))) = true
  \/ Exists bad [sample].
Proof.
  apply (proj1 (handler_panics_at_failed_write_or_bad_line second_write_fails
                  "PUMP_ON" "" (World [sample] [] [] []))).
  vm_compute. exact I.
Defined.

(** ** The port that never fails *)

Section WorkingPort.

Lemma Faulty_singleOutputRead_loop_working (budget : nat) (w : world) :
  Faulty.singleOutputRead_loop (fun _ => false) budget w
  = Main.singleOutputRead_loop budget w.
Proof.
  revert w. induction budget as [|budget IH]; intros w; [reflexivity|].
  cbn [Faulty.singleOutputRead_loop Main.singleOutputRead_loop].
  unfold bind, Faulty.arduino_Write. cbn [Main.arduino_Write].
  destruct (scan _) as [output w'|w'|w'|w']; try reflexivity.
  destruct (Main.outputIsValid output re); [reflexivity | apply IH].
Qed.

Lemma Faulty_readAnswer_working (w : world) :
  Faulty.readAnswer (fun _ => false) w = Main.readAnswer w.
Proof.
  unfold Faulty.readAnswer, Main.readAnswer, bind, Faulty.singleOutputRead,
    Main.singleOutputRead.
  rewrite Faulty_singleOutputRead_loop_working. reflexivity.
Qed.

Lemma Faulty_pumpLoop_working (param : string) (budget : nat) (w : world) :
  Faulty.pumpLoop (fun _ => false) budget param w = Main.pumpLoop budget param w.
Proof.
  revert w. induction budget as [|budget IH]; intros w; [reflexivity|].
  cbn [Faulty.pumpLoop Main.pumpLoop]. unfold bind.
  rewrite Faulty_readAnswer_working.
  destruct (Main.readAnswer w) as [answer w'|w'|w'|w']; try reflexivity.
  destruct (String.eqb param "PUMP_ON" && answerIs answer "PUMP" 1);
    [reflexivity|].
  destruct (String.eqb param "PUMP_OFF" && answerIs answer "PUMP" 0);
    [reflexivity | apply IH].
Qed.

Lemma Faulty_levelLoop_working (param : string) (n : Z) (budget : nat)
      (w : world) :
  Faulty.levelLoop (fun _ => false) budget param n w
  = Main.levelLoop budget param n w.
Proof.
  revert w. induction budget as [|budget IH]; intros w; [reflexivity|].
  cbn [Faulty.levelLoop Main.levelLoop]. unfold bind.
  rewrite Faulty_readAnswer_working.
  destruct (Main.readAnswer w) as [answer w'|w'|w'|w']; try reflexivity.
  destruct (answerIs answer param n); [reflexivity | apply IH].
Qed.

(** On a port that never fails the handlers are those of [Main]. *)
Lemma Faulty_handlers_working (param value : string) (w : world) :
  Faulty.setHandler (fun _ => false) param value w = Main.setHandler param value w
  /\ Faulty.getHandler (fun _ => false) w = Main.getHandler w.
Proof.
  split.
  - unfold Faulty.setHandler, Main.setHandler.
    destruct (negb (URLParamValid param)); [reflexivity|].
    destruct (negb (URLValueValid param value)); [reflexivity|].
    unfold bind at 1 3. unfold Faulty.arduino_Write. cbn [Main.arduino_Write].
    destruct (stringInSlice param VxxParams).
    + unfold bind. destruct (ParseInt value 10 64) as [n [e|]]; [reflexivity|].
      cbn [check ret]. unfold Faulty.levelConfirm, Main.levelConfirm.
      apply Faulty_levelLoop_working.
    + destruct (stringInSlice param pumpParams).
      * unfold Faulty.pumpConfirm, Main.pumpConfirm. apply Faulty_pumpLoop_working.
      * destruct (stringInSlice param TxxParams); [|reflexivity].
        unfold bind. rewrite Faulty_readAnswer_working. reflexivity.
  - unfold Faulty.getHandler, Main.getHandler, bind.
    rewrite Faulty_readAnswer_working. reflexivity.
Qed.

End WorkingPort.
